(** * StockSelectorZ: the indicator and signal engine of [stock_selector.py]

    A shallow embedding of [sma], [calculate_kdj], [calculate_macd],
    [analyze_stock] and the per-file body of [run_stock_selection], with the
    properties the specification states about them.

    Numbers.  A pandas float cell is either a number or NaN.  Numbers are
    exact rationals ([Qc], canonical fractions, so that equal numbers are
    equal terms); NaN is [None].  Rounding of binary floating point is not
    modelled.  The bars of a Series and the entries of the market-cap table
    are numbers (section 3 of the specification); NaN only arises inside the
    engine, from [shift] and from rolling windows that are not yet full.

    Columns.  A pandas Series of floats is a [list (option Qc)], a boolean
    Series is a [list bool] (pandas has no undefined boolean: a comparison
    with NaN is [False], except [!=] which is [True]). *)

From Stdlib Require Import QArith Qcanon Lqa.
From stdpp Require Import base tactics option list numbers strings gmap sorting.

Local Open Scope Qc_scope.

(** ** Floats with NaN *)

Abbreviation float := (option Qc).

Definition NaN : float := None.

Definition num (z : Z) : Qc := Qc_of_Z z.

(** A decimal literal of the source, as a fraction: [1.5] is [frac 3 2]. *)
Definition frac (a : Z) (b : positive) : Qc := Q2Qc (a # b).

(** [pd.isna] on a cell. *)
Definition isna (x : float) : bool :=
  match x with
  | None => true
  | Some _ => false
  end.

(** Arithmetic propagates NaN.  Every division of the source is by a
    constant different from zero or sits behind a test that the divisor is
    not zero, so no infinity is ever produced. *)
Definition lift2 (f : Qc → Qc → Qc) (x y : float) : float :=
  match x, y with
  | Some a, Some b => Some (f a b)
  | _, _ => None
  end.

Definition fadd : float → float → float := lift2 Qcplus.
Definition fsub : float → float → float := lift2 Qcminus.
Definition fmul : float → float → float := lift2 Qcmult.
Definition fdiv : float → float → float := lift2 Qcdiv.

(** Scalar (a Python int or float literal) times or divided into a cell. *)
Definition scale (c : Qc) (x : float) : float := fmul (Some c) x.
Definition fdivc (x : float) (c : Qc) : float := fdiv x (Some c).

(** Comparisons on numbers, by [Qccompare]. *)
Definition Qcltb (a b : Qc) : bool :=
  match a ?= b with
  | Lt => true
  | _ => false
  end.

Definition Qcleb (a b : Qc) : bool :=
  match a ?= b with
  | Gt => false
  | _ => true
  end.

Definition Qceqb (a b : Qc) : bool :=
  match a ?= b with
  | Eq => true
  | _ => false
  end.

(** Comparisons on cells: [False] as soon as one side is NaN, but [!=] is
    the negation of [==] and so [True] there. *)
Definition cmp2 (f : Qc → Qc → bool) (x y : float) : bool :=
  match x, y with
  | Some a, Some b => f a b
  | _, _ => false
  end.

Definition flt : float → float → bool := cmp2 Qcltb.
Definition fle : float → float → bool := cmp2 Qcleb.
Definition fgt (x y : float) : bool := flt y x.
Definition fge (x y : float) : bool := fle y x.
Definition feq : float → float → bool := cmp2 Qceqb.
Definition fne (x y : float) : bool := negb (feq x y).

(** ** [sma]: the recursive smoother

<<
    result = pd.Series(index=series.index, dtype=float)
    result.iloc[0] = series.iloc[0]
    for i in range(1, len(series)):
        if pd.isna(result.iloc[i - 1]):
            result.iloc[i] = series.iloc[i]
        else:
            result.iloc[i] = (m * series.iloc[i] + (n - m) * result.iloc[i - 1]) / n
    return result
>>
    [result] starts as a column of NaN as long as [series] and is written
    one index at a time.  [series.iloc[0]] raises on an empty column, which
    is the [None] of [sma].  Both call sites pass [n = 3] and [m = 1]; the
    model takes any numbers, and means the source only for [n] other than
    zero. *)

Definition sma_next (n m : Qc) (prev x : float) : float :=
  if isna prev then x
  else fdivc (fadd (scale m x) (scale (n - m) prev)) n.

Definition sma_body (series : list float) (n m : Qc)
    (result : list float) (i : nat) : list float :=
  match result !! (i - 1)%nat, series !! i with
  | Some prev, Some x => <[i := sma_next n m prev x]> result
  | _, _ => result
  end.

Definition sma (series : list float) (n m : Qc) : option (list float) :=
  match series with
  | [] => None
  | x0 :: _ =>
      let result := <[0%nat := x0]> (replicate (length series) NaN) in
      Some (foldl (sma_body series n m) result (seq 1 (length series - 1)))
  end.

(** The same recursion, carrying the previous output instead of reading it
    back from the array. *)
Fixpoint sma_from (n m : Qc) (prev : float) (xs : list float) : list float :=
  match xs with
  | [] => []
  | x :: xs' =>
      let r := sma_next n m prev x in
      r :: sma_from n m r xs'
  end.

(** ** Columns: [shift], [rolling], [ewm] *)

(** [xs.shift(1)]: every cell moves one row down, the first becomes NaN. *)
Definition shift1 (xs : list float) : list float :=
  take (length xs) (NaN :: xs).

(** The cells [i-w+1 .. i] of a column. *)
Definition window (w i : nat) (xs : list float) : list float :=
  take w (drop (S i - w) xs).

(** The numbers of a window, when none of its cells is NaN. *)
Fixpoint all_num (xs : list float) : option (list Qc) :=
  match xs with
  | [] => Some []
  | x :: xs' =>
      match x, all_num xs' with
      | Some a, Some l => Some (a :: l)
      | _, _ => None
      end
  end.

(** [xs.rolling(window=w).agg()]: pandas takes [min_periods = w], so the
    cell is NaN until [w] rows are there and whenever the window holds a
    NaN. *)
Definition rolling (agg : list Qc → Qc) (w : nat) (xs : list float)
    : list float :=
  imap (λ i _, if decide (w ≤ S i)%nat
               then agg <$> all_num (window w i xs)
               else NaN) xs.

Definition qmin (a b : Qc) : Qc := if Qcleb a b then a else b.
Definition qmax (a b : Qc) : Qc := if Qcleb a b then b else a.

Definition agg_min (l : list Qc) : Qc :=
  match l with
  | [] => 0
  | a :: r => foldl qmin a r
  end.

Definition agg_max (l : list Qc) : Qc :=
  match l with
  | [] => 0
  | a :: r => foldl qmax a r
  end.

Definition agg_sum (l : list Qc) : Qc := foldr Qcplus 0 l.

Definition agg_mean (l : list Qc) : Qc :=
  agg_sum l / num (Z.of_nat (length l)).

(** [xs.ewm(span=s, adjust=False).mean()].  With [alpha = 2/(s+1)] pandas
    keeps the running average [weighted] and the weight [old_wt] of what it
    has seen; the first cell seeds the average, a number [cur] updates it to
    [(old_wt*weighted + alpha*cur) / (old_wt + alpha)] after [old_wt] decayed
    by [1-alpha], and a NaN only lets [old_wt] decay.  Leading NaN cells stay
    NaN until the first number. *)
Definition ewm_alpha (span : Qc) : Qc := 2 / (span + 1).

Definition ewm_step (alpha : Qc) (st : float * Qc) (cur : float)
    : float * Qc :=
  match fst st with
  | Some w =>
      let old_wt := snd st * (1 - alpha) in
      match cur with
      | Some c =>
          (Some (if Qceqb w c then w
                 else (old_wt * w + alpha * c) / (old_wt + alpha)), 1)
      | None => (Some w, old_wt)
      end
  | None => (cur, snd st)
  end.

Fixpoint ewm_from (alpha : Qc) (st : float * Qc) (xs : list float)
    : list float :=
  match xs with
  | [] => []
  | cur :: xs' =>
      let st' := ewm_step alpha st cur in
      fst st' :: ewm_from alpha st' xs'
  end.

Definition ewm_mean (span : Qc) (xs : list float) : list float :=
  match xs with
  | [] => []
  | x0 :: xs' => x0 :: ewm_from (ewm_alpha span) (x0, 1) xs'
  end.

(** ** Bars and frames *)

Record Bar := {
  date : Z;
  open : Qc;
  high : Qc;
  low : Qc;
  close : Qc;
  volume : Qc;
  amount : Qc
}.

(** A frame read from a data file: its rows, and whether it has an
    ['amount'] column at all (when it has none, [amount] of a row is not
    read). *)
Record DataFrame := {
  has_amount : bool;
  rows : list Bar
}.

Definition col (f : Bar → Qc) (bars : list Bar) : list float :=
  map (λ b, Some (f b)) bars.

(** [df.sort_values('date').reset_index(drop=True)].  Dates are unique in a
    Series, so the order of equal keys never shows. *)
Definition date_le (a b : Bar) : Prop := (date a ≤ date b)%Z.

#[global] Instance date_le_dec : RelDecision date_le.
Proof. intros a b. unfold date_le. apply _. Defined.

Definition sort_values (bars : list Bar) : list Bar :=
  merge_sort date_le bars.

(** Elementwise operations on columns. *)
Definition band : list bool → list bool → list bool := zip_with andb.
Definition bor : list bool → list bool → list bool := zip_with orb.
Definition bnot : list bool → list bool := map negb.

Definition bool_num (b : bool) : Qc := if b then 1 else 0.

(** A boolean column read as numbers ([True] is [1.0]). *)
Definition as_float (bs : list bool) : list float :=
  map (λ b, Some (bool_num b)) bs.

(** [xs * bs]: volume kept where the label holds, zero elsewhere. *)
Definition mask_mul (xs : list float) (bs : list bool) : list float :=
  zip_with (λ x b, fmul x (Some (bool_num b))) xs bs.

(** ** [calculate_kdj] *)

Definition low_9 (bars : list Bar) : list float :=
  rolling agg_min 9 (col low bars).

Definition high_9 (bars : list Bar) : list float :=
  rolling agg_max 9 (col high bars).

Definition den (bars : list Bar) : list float :=
  zip_with fsub (high_9 bars) (low_9 bars).

(** One cell of [rsv]: the column starts as the constant 50 and is
    overwritten where [mask = den != 0] holds, which includes the rows where
    [den] is NaN (the integer column becomes a float column by that
    assignment). *)
Definition rsv_cell (c lo d : float) : float :=
  if fne d (Some 0)
  then fmul (fdiv (fsub c lo) d) (Some (num 100))
  else Some (num 50).

Definition rsv (bars : list Bar) : list float :=
  zip_with (λ c lod, rsv_cell c (fst lod) (snd lod))
    (col close bars) (zip (low_9 bars) (den bars)).

Definition j_cell (k d : float) : float :=
  fsub (scale (num 3) k) (scale (num 2) d).

Definition calculate_kdj (bars : list Bar)
    : option (list float * list float * list float) :=
  match sma (rsv bars) (num 3) 1 with
  | None => None
  | Some k =>
      match sma k (num 3) 1 with
      | None => None
      | Some d => Some (k, d, zip_with j_cell k d)
      end
  end.

(** ** [calculate_macd] *)

Definition calculate_macd (bars : list Bar) (fast slow signal : Qc)
    : list float * list float * list float :=
  let ema_fast := ewm_mean fast (col close bars) in
  let ema_slow := ewm_mean slow (col close bars) in
  let dif := zip_with fsub ema_fast ema_slow in
  let dea := ewm_mean signal dif in
  let macd := map (λ x, fmul x (Some 2)) (zip_with fsub dif dea) in
  (dif, dea, macd).

Definition macd_default (bars : list Bar) :=
  calculate_macd bars (num 12) (num 26) (num 9).

(** ** Words of the specification

    The rolling extrema of the specification, said without the code: the
    [w] bars that end at bar [i], and the greatest and least of a list. *)
Definition last_bars (w i : nat) (bars : list Bar) : list Bar :=
  take w (drop (S i - w) bars).

Definition is_max (x : Qc) (l : list Qc) : Prop :=
  x ∈ l ∧ ∀ y, y ∈ l → y ≤ x.

Definition is_min (x : Qc) (l : list Qc) : Prop :=
  x ∈ l ∧ ∀ y, y ∈ l → x ≤ y.

(** A predicate on a cell that may be undefined: false when it is. *)
Definition holds (P : Qc → Prop) `{!∀ x, Decision (P x)} (x : float) : bool :=
  match x with
  | Some a => bool_decide (P a)
  | None => false
  end.

(** MarketCapFloor: passes when the circulating market value is at least
    30, and when the table has no entry for the instrument. *)
Definition MarketCapFloor (spot_dict : gmap string Qc) (code : string) : bool :=
  match spot_dict !! code with
  | Some mv => bool_decide (num 30 ≤ mv)
  | None => true
  end.

(** A candle label that needs the previous close, as the specification
    words it: undefined at bar 0, a comparison from bar 1 on. *)
Definition spec_label (f : Bar → Bar → bool) (bars : list Bar)
    : list (option bool) :=
  imap (λ i b, match i with
               | 0%nat => None
               | S j => f b <$> bars !! j
               end) bars.

Definition spec_RealBullish : list Bar → list (option bool) :=
  spec_label (λ b p, bool_decide (open b < close b)
                     && negb (bool_decide (close b < close p))).
Definition spec_RealBearish : list Bar → list (option bool) :=
  spec_label (λ b p, bool_decide (close b < open b)
                     && negb (bool_decide (close p < close b))).
Definition spec_LooseBullish : list Bar → list (option bool) :=
  spec_label (λ b p, negb (bool_decide (close b < close p))).
Definition spec_LooseBearish : list Bar → list (option bool) :=
  spec_label (λ b p, negb (bool_decide (close p < close b))).

(** A bar of the flat scenario: every price 100, volume 1000. *)
Definition is_flat (b : Bar) : Prop :=
  open b = num 100 ∧ high b = num 100 ∧ low b = num 100
  ∧ close b = num 100 ∧ volume b = num 1000.

(** ** [analyze_stock]: the columns

    Every definition below is one assignment of the source, over the rows
    after [sort_values]. *)

Module Cols.
Section Columns.
Variable amt : bool.
Variable bars : list Bar.

Definition H : list float := col high bars.
Definition L : list float := col low bars.
Definition C : list float := col close bars.
Definition O : list float := col open bars.
Definition VOL : list float := col volume bars.

(** [df['amount'] if 'amount' in df.columns else df['volume'] * df['close']] *)
Definition AMOUNT : list float :=
  if amt then col amount bars else zip_with fmul VOL C.

Definition REF_C_1 : list float := shift1 C.
Definition REF_VOL_1 : list float := shift1 VOL.

(** KDJ *)
Definition J_OK_of (j : list float) : list bool :=
  map (λ x, fle x (Some (num 13))) j.

(** Candles *)
Definition REAL_YANG : list bool :=
  band (zip_with fgt C O) (bnot (zip_with flt C REF_C_1)).
Definition REAL_YIN : list bool :=
  band (zip_with flt C O) (bnot (zip_with fgt C REF_C_1)).
Definition FAKE_YANG : list bool := bnot (zip_with flt C REF_C_1).
Definition FAKE_YIN : list bool := bnot (zip_with fgt C REF_C_1).

(** Volume by label *)
Definition vol_sum (label : list bool) (w : nat) : list float :=
  rolling agg_sum w (mask_mul VOL label).

Definition VOL_YANG21 := vol_sum REAL_YANG 21.
Definition VOL_YIN21 := vol_sum REAL_YIN 21.
Definition VOL_YANG14 := vol_sum REAL_YANG 14.
Definition VOL_YIN14 := vol_sum REAL_YIN 14.
Definition VOL_FAKEYANG21 := vol_sum FAKE_YANG 21.
Definition VOL_FAKEYIN21 := vol_sum FAKE_YIN 21.
Definition VOL_FAKEYANG14 := vol_sum FAKE_YANG 14.
Definition VOL_FAKEYIN14 := vol_sum FAKE_YIN 14.
Definition VOL_FAKEYANG10 := vol_sum FAKE_YANG 10.
Definition VOL_FAKEYIN10 := vol_sum FAKE_YIN 10.

(** [a > c * b], cell by cell *)
Definition exceeds (c : Qc) (a b : list float) : list bool :=
  zip_with (λ x y, fgt x (scale c y)) a b.

Definition YANGYIN_OK : list bool :=
  bor (bor (bor (bor
    (exceeds (frac 3 2) VOL_YANG21 VOL_YIN21)
    (exceeds (frac 3 2) VOL_YANG14 VOL_YIN14))
    (exceeds (frac 3 2) VOL_FAKEYANG21 VOL_FAKEYIN21))
    (exceeds (frac 3 2) VOL_FAKEYANG14 VOL_FAKEYIN14))
    (exceeds (frac 9 5) VOL_FAKEYANG10 VOL_FAKEYIN10).

(** Liquidity *)
Definition A28 : list float :=
  map (λ x, fdivc x (num 100000000)) (rolling agg_mean 28 AMOUNT).
Definition lq : list bool := map (λ x, fge x (Some (frac 5 1000))) A28.

(** Market value: a column of [True] here, checked after the analysis. *)
Definition mvok : list bool := replicate (length bars) true.

(** Price pattern.  [good28] is computed and not used by [xg]. *)
Definition llv_o_28 := rolling agg_min 28 O.
Definition hhv_o_28 := rolling agg_max 28 O.
Definition O85 : list float :=
  zip_with fadd llv_o_28 (map (scale (frac 925 1000)) (zip_with fsub hhv_o_28 llv_o_28)).
Definition top15o : list bool := zip_with fge O O85.
Definition fd15 : list bool :=
  band (band (zip_with flt C REF_C_1) (zip_with fle C O))
       (zip_with fge VOL (map (scale (frac 115 100)) REF_VOL_1)).
(** [flags.rolling(window=w).sum()] and its test [== 0] *)
Definition rolling_count (flags : list bool) (w : nat) : list float :=
  rolling agg_sum w (as_float flags).
Definition is_zero (xs : list float) : list bool :=
  map (λ x, feq x (Some 0)) xs.
Definition good28 : list bool :=
  is_zero (rolling_count (band top15o fd15) 28).

Definition maxvol28 : list float := rolling agg_max 28 VOL.
Definition max28_count : list float :=
  rolling_count (band (zip_with feq VOL maxvol28) REAL_YIN) 28.
Definition max28_ok : list bool := is_zero max28_count.

(** Volume surge *)
Definition AVG40 : list float := rolling agg_mean 40 VOL.
Definition plry : list bool :=
  band (band (zip_with fgt VOL (map (scale (frac 18 10)) REF_VOL_1))
             (zip_with fgt C O))
       (zip_with fgt VOL AVG40).
Definition plry_cnt : list bool :=
  map (λ x, fge x (Some 1)) (rolling_count plry 28).

(** Key bar *)
Definition V40P : list float := rolling agg_mean 40 REF_VOL_1.
Definition bd : list bool :=
  band (zip_with fgt C REF_C_1) (zip_with fge C O).
Definition bigv : list bool :=
  zip_with fgt VOL (map (scale (frac 175 100)) V40P).
Definition llv_c_40 := rolling agg_min 40 C.
Definition hhv_c_40 := rolling agg_max 40 C.
Definition R55 : list float :=
  zip_with fadd llv_c_40 (map (scale (frac 55 100)) (zip_with fsub hhv_c_40 llv_c_40)).
Definition posok : list bool := zip_with fgt C R55.

Definition trigger : list bool := bor plry_cnt (band (band bd bigv) posok).

(** MACD *)
Definition DIF : list float := fst (fst (macd_default bars)).
Definition DEA : list float := snd (fst (macd_default bars)).
Definition macd_ok : list bool := map (λ x, fgt x (Some 0)) DIF.

(** [xg = j_ok & trigger & lq & mvok & max28_ok & yangyin_ok & macd_ok] *)
Definition xg_of (j_ok : list bool) : list bool :=
  band (band (band (band (band (band j_ok trigger) lq) mvok) max28_ok)
             YANGYIN_OK) macd_ok.
End Columns.
End Cols.

(** ** [analyze_stock]: the result *)

(** A value of the [indicators] dict. *)
Inductive value :=
  | VBool (b : bool)
  | VNum (x : float)
  | VNone.

#[global] Instance value_eq_dec : EqDecision value.
Proof. solve_decision. Defined.

Record result := {
  r_date : Z;
  stock_code : option string;
  selected : bool;
  indicators : gmap string value;
  raw_data : Bar
}.

Definition indicators_of (j_last dif_last : float)
    (xg_last trigger_last lq_last max28_last yangyin_last macd_ok_last : bool)
    : gmap string value :=
  <["DIF>0" := VBool (if isna dif_last then false else macd_ok_last)]>
  (<["MACD_DIF" := VNum dif_last]>
  (<["YANGYIN_OK" := VBool yangyin_last]>
  (<["MAX28_OK" := VBool max28_last]>
  (<["LQ" := VBool lq_last]>
  (<["TRIGGER" := VBool trigger_last]>
  (<["J_OK" := VBool (if isna j_last then false else xg_last)]>
  (<["J" := VNum j_last]> ∅))))))).

Definition analyze_stock (df : DataFrame) : option result :=
  if decide (length (rows df) < 60)%nat then None
  else
    let bars := sort_values (rows df) in
    let amt := has_amount df in
    '(k, d, j) ← calculate_kdj bars;
    let j_ok := Cols.J_OK_of j in
    let xg := Cols.xg_of amt bars j_ok in
    latest ← last bars;
    latest_J ← last j;
    latest_DIF ← last (Cols.DIF bars);
    latest_XG ← last xg;
    trigger_last ← last (Cols.trigger bars);
    lq_last ← last (Cols.lq amt bars);
    max28_last ← last (Cols.max28_ok bars);
    yangyin_last ← last (Cols.YANGYIN_OK bars);
    macd_ok_last ← last (Cols.macd_ok bars);
    Some {|
      r_date := date latest;
      stock_code := None;
      selected := latest_XG;
      indicators :=
        indicators_of latest_J latest_DIF latest_XG trigger_last lq_last
          max28_last yangyin_last macd_ok_last;
      raw_data := latest
    |}.

(** ** [run_stock_selection] *)

(** The market-cap table: the snapshot divided by 1e8, or the empty dict
    when fetching it raised. *)
Definition load_spot_dict (spot : option (gmap string Qc)) : gmap string Qc :=
  match spot with
  | Some t => (λ v, v / num 100000000) <$> t
  | None => ∅
  end.

(** The market-value check on one result. *)
Definition check_market_value (spot_dict : gmap string Qc) (code : string)
    (r : result) : result :=
  match spot_dict !! code with
  | Some mv =>
      {| r_date := r_date r;
         stock_code := stock_code r;
         selected := if Qcltb mv (num 30) then false else selected r;
         indicators :=
           <["MVOK" := VBool (Qcleb (num 30) mv)]>
             (<["MV" := VNum (Some mv)]> (indicators r));
         raw_data := raw_data r |}
  | None =>
      {| r_date := r_date r;
         stock_code := stock_code r;
         selected := selected r;
         indicators :=
           <["MVOK" := VBool true]> (<["MV" := VNone]> (indicators r));
         raw_data := raw_data r |}
  end.

Definition set_stock_code (code : string) (r : result) : result :=
  {| r_date := r_date r;
     stock_code := Some code;
     selected := selected r;
     indicators := indicators r;
     raw_data := raw_data r |}.

(** The body of the loop over the data files: [None] is "skipped, not
    enough data". *)
Definition select_one (spot_dict : gmap string Qc) (code : string)
    (df : DataFrame) : option result :=
  r ← analyze_stock df;
  Some (check_market_value spot_dict code (set_stock_code code r)).

(** The loop: the results of the files that were analysed, of which
    [selected_stocks] keeps the selected ones. *)
Definition analysed (spot : option (gmap string Qc))
    (files : list (string * DataFrame)) : list result :=
  omap (λ f, select_one (load_spot_dict spot) (fst f) (snd f)) files.

Definition run_stock_selection (spot : option (gmap string Qc))
    (files : list (string * DataFrame)) : list result :=
  filter (λ r, selected r = true) (analysed spot files).

(** ** Series used as examples *)

(** The two rows of the specification's smoother scenario. *)
Definition two_bars : list Bar :=
  [ {| date := 0; open := num 10; high := num 10; low := num 10;
       close := num 10; volume := num 100; amount := num 1000 |};
    {| date := 1; open := num 10; high := num 11; low := num 9;
       close := frac 21 2; volume := num 120; amount := num 1260 |} ].

(** Day [d] of a flat Series. *)
Definition flat_bar (d : Z) : Bar :=
  {| date := d; open := num 100; high := num 100; low := num 100;
     close := num 100; volume := num 1000; amount := num 100000 |}.

Definition flat_rows (n : nat) : list Bar :=
  map (λ i, flat_bar (Z.of_nat i)) (seq 0 n).

Definition flat_frame (n : nat) : DataFrame :=
  {| has_amount := true; rows := flat_rows n |}.

(** 59 flat days, then a day that opens at 100 and closes at its low 90. *)
Definition dip_bar : Bar :=
  {| date := 59; open := num 100; high := num 100; low := num 90;
     close := num 90; volume := num 1000; amount := num 90000 |}.

Definition dip_frame : DataFrame :=
  {| has_amount := true; rows := flat_rows 59 ++ [dip_bar] |}.

(** Ten days of rising closes. *)
Definition ramp (i : nat) : Bar :=
  {| date := Z.of_nat i; open := num 10; high := num 10 + num (Z.of_nat i);
     low := num 10; close := num 10 + num (Z.of_nat i);
     volume := num 100; amount := num 1000 |}.

(** ** Ranges, well-formed bars, traded value *)

(** A cell within bounds; NaN is within any bounds. *)
Definition cell_in (lo hi : Qc) (x : float) : Prop :=
  match x with
  | Some a => lo ≤ a ≤ hi
  | None => True
  end.

Definition well_formed (b : Bar) : Prop := low b ≤ close b ≤ high b.

(** The traded value of a bar, as [analyze_stock] reads it. *)
Definition amount_of (amt : bool) (b : Bar) : Qc :=
  if amt then amount b else volume b * close b.

(** ** The report of [run_stock_selection]

<<
    if selected_stocks:
        results_data = []
        for r in selected_stocks:
            row = {'股票代码': r['stock_code'], '日期': r['date'],
                   'J值': r['indicators']['J'],
                   'MACD_DIF': r['indicators']['MACD_DIF'],
                   '流通市值(亿)': r['indicators'].get('MV'),
                   '收盘价': r['raw_data']['close'],
                   '成交量': r['raw_data']['volume']}
            results_data.append(row)
        result_df = pd.DataFrame(results_data)
        result_df.to_excel(output_file, ...)
    else:
        print("\n没有符合条件的股票")
>>
    [d[key]] raises on a missing key, [d.get(key)] gives [None]. *)
Record report_row := {
  row_code : option string;
  row_date : Z;
  row_J : value;
  row_MACD_DIF : value;
  row_MV : value;
  row_close : Qc;
  row_volume : Qc
}.

Definition results_row (r : result) : option report_row :=
  j ← indicators r !! "J";
  dif ← indicators r !! "MACD_DIF";
  Some {| row_code := stock_code r;
          row_date := r_date r;
          row_J := j;
          row_MACD_DIF := dif;
          row_MV := default VNone (indicators r !! "MV");
          row_close := close (raw_data r);
          row_volume := volume (raw_data r) |}.

Inductive report :=
  | NothingSelected
  | Saved (rows : list report_row)
  | MissingKey.

Definition save_report (selected_stocks : list result) : report :=
  match selected_stocks with
  | [] => NothingSelected
  | _ :: _ =>
      match mapM results_row selected_stocks with
      | Some rows => Saved rows
      | None => MissingKey
      end
  end.

(** ** [data_fetcher.py]

    The spot table is its code column; the data directory is a map from
    stock code to the rows saved in that code's file.  Creating the
    directory, the pause between requests and the file format are not
    modelled. *)

(** [s.str.contains(p, na=False)] for a pattern without regex operators:
    [p] occurs somewhere in [s]. *)
Fixpoint contains (p s : string) : bool :=
  String.prefix p s
  || match s with
     | EmptyString => false
     | String _ s' => contains p s'
     end.

(** A cell of the code column: a string, or NaN. *)
Definition cell_contains (p : string) (c : option string) : bool :=
  match c with
  | Some s => contains p s
  | None => false
  end.

(** [get_stock_list]: the code column of the spot table, filtered twice;
    [None] is the table that could not be fetched. *)
Definition get_stock_list (spot : option (list (option string)))
    : list string :=
  match spot with
  | None => []
  | Some codes =>
      let stock_df := filter (λ c, cell_contains "sh" c = true) codes in
      let stock_df := filter (λ c, cell_contains "sz" c = true) stock_df in
      omap id stock_df
  end.

(** The data directory: the rows saved under each stock code. *)
Abbreviation data_dir := (gmap string (list Bar)).

(** [fetch_single_stock_data].  [daily] stands for
    [ak.stock_zh_a_daily] on the chosen dates: the rows it returns, or
    [None] when it raises. *)
Definition fetch_single_stock_data (daily : string → option (list Bar))
    (stock_code : string) (files : data_dir) : bool * data_dir :=
  match files !! stock_code with
  | Some _ => (true, files)
  | None =>
      match daily stock_code with
      | None => (false, files)
      | Some [] => (false, files)
      | Some rows => (true, <[stock_code := sort_values rows]> files)
      end
  end.

(** [stock_list[:max_stocks]], taken only when [max_stocks] is truthy. *)
Definition limit (max_stocks : option Z) (stock_list : list string)
    : list string :=
  match max_stocks with
  | None => stock_list
  | Some k =>
      if (k =? 0)%Z then stock_list
      else if (0 <? k)%Z then take (Z.to_nat k) stock_list
      else take (length stock_list - Z.to_nat (- k)) stock_list
  end.

Record counts := { success_count : nat; fail_count : nat }.

Definition batch_step (daily : string → option (list Bar))
    (st : counts * data_dir) (stock_code : string) : counts * data_dir :=
  let '(ok, files') := fetch_single_stock_data daily stock_code (snd st) in
  if ok
  then ({| success_count := S (success_count (fst st));
           fail_count := fail_count (fst st) |}, files')
  else ({| success_count := success_count (fst st);
           fail_count := S (fail_count (fst st)) |}, files').

Definition batch_fetch_data (spot : option (list (option string)))
    (daily : string → option (list Bar)) (max_stocks : option Z)
    (files : data_dir) : counts * data_dir :=
  foldl (batch_step daily)
        ({| success_count := 0; fail_count := 0 |}, files)
        (limit max_stocks (get_stock_list spot)).

Definition is_digit (c : Ascii.ascii) : bool :=
  (48 <=? Ascii.nat_of_ascii c)%nat && (Ascii.nat_of_ascii c <=? 57)%nat.

Fixpoint all_digits (s : string) : bool :=
  match s with
  | EmptyString => true
  | String c s' => is_digit c && all_digits s'
  end.

(** An exchange prefix followed by digits, as in [sh600000]. *)
Definition prefixed_code (s : string) : Prop :=
  ∃ p ds, s = (p +:+ ds)%string ∧ p ∈ ["sh"; "sz"; "bj"]
          ∧ all_digits ds = true.

(** The download of a code gives nothing to save: it raises, or returns no
    rows. *)
Definition fails (daily : string → option (list Bar)) (code : string) : Prop :=
  daily code = None ∨ daily code = Some [].

Definition add_counts (c : counts) (s f : nat) : counts :=
  {| success_count := success_count c + s; fail_count := fail_count c + f |}.

(** ** More Series used as examples *)

(** A rising Series with one day of doubled volume, then two falling
    days: 58 days closing one higher each day, then closes at 148 and 147. *)
Definition rise_bar (i : nat) : Bar :=
  {| date := Z.of_nat i;
     open := num (99 + Z.of_nat i); high := num (100 + Z.of_nat i);
     low := num (99 + Z.of_nat i); close := num (100 + Z.of_nat i);
     volume := if decide (i = 50%nat) then num 200000 else num 100000;
     amount := 0 |}.

Definition fall_bar (d o c : Z) : Bar :=
  {| date := d; open := num o; high := num o; low := num c; close := num c;
     volume := num 100000; amount := 0 |}.

Definition surge_frame : DataFrame :=
  {| has_amount := false;
     rows := map rise_bar (seq 0 58)
             ++ [fall_bar 58 157 148; fall_bar 59 148 147] |}.

(** An oracle for the daily bars: one stock has data, one has none, the
    others raise. *)
Definition daily_example (code : string) : option (list Bar) :=
  if decide (code = "shsz01") then Some (reverse two_bars)
  else if decide (code = "shsz02") then Some []
  else None.

(** * Properties

    ** The loop of [sma] computes the recursion *)

Lemma sma_from_length n m p xs : length (sma_from n m p xs) = length xs.
Proof. revert p. induction xs as [|x xs IH]; intros p; simpl; [done|]. by rewrite IH. Qed.

Lemma sma_from_lookup n m x0 xs k prev x :
  (x0 :: sma_from n m x0 xs) !! k = Some prev →
  xs !! k = Some x →
  sma_from n m x0 xs !! k = Some (sma_next n m prev x).
Proof.
  revert x0 k. induction xs as [|y xs IH]; intros x0 k; [done|].
  destruct k as [|k]; simpl.
  - by intros [= <-] [= <-].
  - intros Hp Hx. by apply IH.
Qed.

Lemma sma_loop_inv n m x0 xs k :
  (k ≤ length xs)%nat →
  foldl (sma_body (x0 :: xs) n m) (x0 :: replicate (length xs) NaN) (seq 1 k)
  = x0 :: take k (sma_from n m x0 xs) ++ replicate (length xs - k) NaN.
Proof.
  induction k as [|k IH]; intros Hk.
  - simpl. by rewrite Nat.sub_0_r.
  - rewrite seq_S, foldl_app, IH by lia. simpl.
    unfold sma_body. replace (S k - 1)%nat with k by lia.
    destruct (lookup_lt_is_Some_2 xs k) as [x Hx]; [lia|].
    assert (Hlen : length (take k (sma_from n m x0 xs)) = k).
    { rewrite length_take, sma_from_length. lia. }
    assert (∃ prev, (x0 :: sma_from n m x0 xs) !! k = Some prev) as [prev Hprev].
    { apply lookup_lt_is_Some_2. simpl. rewrite sma_from_length. lia. }
    assert (Hres : (x0 :: take k (sma_from n m x0 xs)
                       ++ replicate (length xs - k) NaN) !! k = Some prev).
    { destruct k as [|j]; [done|]. simpl in *.
      rewrite lookup_app_l by lia. rewrite lookup_take_lt by lia. done. }
    rewrite Hres. simpl. rewrite Hx.
    pose proof (sma_from_lookup _ _ _ _ _ _ _ Hprev Hx) as Hnew.
    rewrite (take_S_r _ _ _ Hnew).
    simpl. f_equal.
    rewrite insert_app_r_alt by lia. rewrite Hlen, Nat.sub_diag.
    replace (length xs - k)%nat with (S (length xs - S k)) by lia.
    simpl. by rewrite <-app_assoc.
Qed.

Lemma sma_unfold n m x0 xs :
  sma (x0 :: xs) n m = Some (x0 :: sma_from n m x0 xs).
Proof.
  unfold sma. cbn [length]. replace (S (length xs) - 1)%nat with (length xs) by lia.
  change (<[0%nat:=x0]> (replicate (S (length xs)) NaN)) with (x0 :: replicate (length xs) NaN).
  rewrite sma_loop_inv by done.
  rewrite Nat.sub_diag. simpl. rewrite app_nil_r.
  rewrite firstn_all2; [done|]. by rewrite sma_from_length.
Qed.

(** ** The smoother: contract and no lookahead *)

Lemma sma_from_take n m p xs l :
  sma_from n m p (take l xs) = take l (sma_from n m p xs).
Proof.
  revert p l. induction xs as [|x xs IH]; intros p [|l]; simpl; try done.
  by rewrite IH.
Qed.

Lemma sma_next_nan n m x : sma_next n m NaN x = x.
Proof. done. Qed.

Lemma sma_next_num n m p a :
  sma_next n m (Some p) (Some a) = Some ((m * a + (n - m) * p) / n).
Proof. done. Qed.

Lemma sma_next_num_nan n m p : sma_next n m (Some p) NaN = NaN.
Proof. done. Qed.

(** C1.  On a column [X] with at least one cell, for a period [n > 0] and a
    weight [0 < m <= n], [sma] returns a column [R] as long as [X] with
    [R[0] = X[0]]; at [i >= 1], [R[i] = X[i]] when [R[i-1]] is NaN, and
    otherwise [R[i] = (m*X[i] + (n-m)*R[i-1]) / n] (NaN when [X[i]] is).
    On [[10; 10.5]] with [n = 3], [m = 1] it returns
    [[10; (1*10.5 + 2*10)/3]], and that number is [61/6]. *)
Theorem sma_contract (X : list float) (n m : Qc) :
  (1 ≤ length X)%nat → 0 < n → 0 < m ≤ n →
  ∃ R, sma X n m = Some R
     ∧ length R = length X
     ∧ R !! 0%nat = X !! 0%nat
     ∧ (∀ i x, (1 ≤ i)%nat → X !! i = Some x →
          R !! (i - 1)%nat = Some NaN → R !! i = Some x)
     ∧ (∀ i a p, (1 ≤ i)%nat → X !! i = Some (Some a) →
          R !! (i - 1)%nat = Some (Some p) →
          R !! i = Some (Some ((m * a + (n - m) * p) / n)))
     ∧ (∀ i p, (1 ≤ i)%nat → X !! i = Some NaN →
          R !! (i - 1)%nat = Some (Some p) → R !! i = Some NaN)
     ∧ sma [Some (num 10); Some (frac 21 2)] (num 3) 1
       = Some [Some (num 10);
               Some ((1 * frac 21 2 + num 2 * num 10) / num 3)]
     ∧ (1 * frac 21 2 + num 2 * num 10) / num 3 = frac 61 6.
Proof.
  intros HL _ _. destruct X as [|x0 xs]; [simpl in HL; lia|].
  exists (x0 :: sma_from n m x0 xs).
  assert (Hstep : ∀ i prev x, (1 ≤ i)%nat → (x0 :: xs) !! i = Some x →
            (x0 :: sma_from n m x0 xs) !! (i - 1)%nat = Some prev →
            (x0 :: sma_from n m x0 xs) !! i = Some (sma_next n m prev x)).
  { intros [|i] prev x Hi Hx Hp; [lia|]. simpl in *.
    rewrite Nat.sub_0_r in Hp. by apply sma_from_lookup. }
  split_and!.
  - apply sma_unfold.
  - simpl. by rewrite sma_from_length.
  - done.
  - intros i x Hi Hx Hp. by rewrite (Hstep i NaN x).
  - intros i a p Hi Hx Hp. by rewrite (Hstep i (Some p) (Some a)).
  - intros i p Hi Hx Hp. by rewrite (Hstep i (Some p) NaN).
  - rewrite sma_unfold. compute_done.
  - compute_done.
Qed.

Lemma sma_contract_witness :
  (1 ≤ length [Some (num 10); Some (frac 21 2)])%nat ∧ 0 < num 3
  ∧ 0 < 1 ≤ num 3
  ∧ ∃ R, sma [Some (num 10); Some (frac 21 2)] (num 3) 1 = Some R
       ∧ length R = 2%nat.
Proof.
  assert (H1 : (1 ≤ length [Some (num 10); Some (frac 21 2)])%nat)
    by (simpl; lia).
  assert (H2 : 0 < num 3) by reflexivity.
  assert (H3 : 0 < 1 ≤ num 3) by (split; [reflexivity | discriminate]).
  split_and!; try done.
  destruct (sma_contract _ _ _ H1 H2 H3) as (R & HR & Hlen & _).
  exists R. split; [exact HR | exact Hlen].
Defined.

(** C9.  No lookahead: the smoother of the first [L'] cells of [X] agrees
    with the smoother of all of [X] at every index [i < L']; it is the first
    [L'] cells of it. *)
Theorem sma_no_lookahead (X : list float) (n m : Qc) (L' i : nat) :
  (L' ≤ length X)%nat → (i < L')%nat →
  ∃ R R', sma X n m = Some R
        ∧ sma (take L' X) n m = Some R'
        ∧ R' = take L' R
        ∧ R' !! i = R !! i.
Proof.
  intros HL Hi. destruct X as [|x0 xs]; [simpl in HL; lia|].
  destruct L' as [|l]; [lia|].
  exists (x0 :: sma_from n m x0 xs), (x0 :: take l (sma_from n m x0 xs)).
  split_and!.
  - apply sma_unfold.
  - change (take (S l) (x0 :: xs)) with (x0 :: take l xs).
    by rewrite sma_unfold, sma_from_take.
  - done.
  - change (x0 :: take l (sma_from n m x0 xs))
      with (take (S l) (x0 :: sma_from n m x0 xs)).
    by apply lookup_take_lt.
Qed.

Lemma sma_no_lookahead_witness :
  (2 ≤ length [Some (num 10); Some (frac 21 2); Some (num 11)])%nat
  ∧ (1 < 2)%nat
  ∧ ∃ R R',
      sma [Some (num 10); Some (frac 21 2); Some (num 11)] (num 3) 1 = Some R
      ∧ sma [Some (num 10); Some (frac 21 2)] (num 3) 1 = Some R'
      ∧ R' !! 1%nat = R !! 1%nat.
Proof.
  assert (H1 : (2 ≤ length [Some (num 10); Some (frac 21 2); Some (num 11)])%nat)
    by (simpl; lia).
  assert (H2 : (1 < 2)%nat) by lia.
  split_and!; try done.
  destruct (sma_no_lookahead _ (num 3) 1 _ _ H1 H2) as (R & R' & HR & HR' & _ & Hi).
  exists R, R'. split_and!; [exact HR | exact HR' | exact Hi].
Defined.

(** ** Comparisons *)
Lemma Qcleb_le a b : Qcleb a b = true ↔ a ≤ b.
Proof.
  unfold Qcleb. rewrite Qcle_alt. destruct (a ?= b); split; congruence.
Qed.

Lemma Qcltb_lt a b : Qcltb a b = true ↔ a < b.
Proof.
  unfold Qcltb. rewrite Qclt_alt. destruct (a ?= b); split; congruence.
Qed.

Lemma Qceqb_eq a b : Qceqb a b = true ↔ a = b.
Proof.
  unfold Qceqb. rewrite Qceq_alt. destruct (a ?= b); split; congruence.
Qed.

Lemma Qcltb_leb a b : Qcltb a b = negb (Qcleb b a).
Proof.
  destruct (Qcltb a b) eqn:E1, (Qcleb b a) eqn:E2; try done.
  - apply Qcltb_lt in E1. apply Qcleb_le in E2.
    by destruct (Qclt_not_le _ _ E1).
  - destruct (Qclt_le_dec a b) as [Hl|Hl].
    + apply Qcltb_lt in Hl. congruence.
    + apply Qcleb_le in Hl. congruence.
Qed.

(** ** Extrema *)
Lemma qmax_cases a b : (qmax a b = a ∨ qmax a b = b) ∧ a ≤ qmax a b ∧ b ≤ qmax a b.
Proof.
  unfold qmax. destruct (Qcleb a b) eqn:E.
  - apply Qcleb_le in E. split_and!; [by right | done | apply Qcle_refl].
  - assert (b ≤ a).
    { destruct (Qclt_le_dec b a) as [Hl|Hl]; [by apply Qclt_le_weak|].
      apply Qcleb_le in Hl. congruence. }
    split_and!; [by left | apply Qcle_refl | done].
Qed.

Lemma qmin_cases a b : (qmin a b = a ∨ qmin a b = b) ∧ qmin a b ≤ a ∧ qmin a b ≤ b.
Proof.
  unfold qmin. destruct (Qcleb a b) eqn:E.
  - apply Qcleb_le in E. split_and!; [by left | apply Qcle_refl | done].
  - assert (b ≤ a).
    { destruct (Qclt_le_dec b a) as [Hl|Hl]; [by apply Qclt_le_weak|].
      apply Qcleb_le in Hl. congruence. }
    split_and!; [by right | done | apply Qcle_refl].
Qed.

Lemma foldl_qmax_is_max r a : is_max (foldl qmax a r) (a :: r).
Proof.
  revert a. induction r as [|x r IH]; intros a; simpl.
  - split; [apply elem_of_cons; by left|].
    intros y Hy. apply list_elem_of_singleton in Hy. rewrite Hy.
    apply Qcle_refl.
  - destruct (IH (qmax a x)) as [Hin Hle].
    destruct (qmax_cases a x) as (Hc & Ha & Hx).
    assert (Hm : qmax a x ≤ foldl qmax (qmax a x) r).
    { apply Hle, elem_of_cons. by left. }
    split.
    + rewrite !elem_of_cons. apply elem_of_cons in Hin.
      destruct Hin as [Heq|Hin]; [|by auto].
      rewrite Heq. destruct Hc as [Hc|Hc]; rewrite Hc; auto.
    + intros y Hy. rewrite !elem_of_cons in Hy.
      destruct Hy as [Hy|[Hy|Hy]].
      * rewrite Hy. by eapply Qcle_trans.
      * rewrite Hy. by eapply Qcle_trans.
      * apply Hle, elem_of_cons. by right.
Qed.

Lemma foldl_qmin_is_min r a : is_min (foldl qmin a r) (a :: r).
Proof.
  revert a. induction r as [|x r IH]; intros a; simpl.
  - split; [apply elem_of_cons; by left|].
    intros y Hy. apply list_elem_of_singleton in Hy. rewrite Hy.
    apply Qcle_refl.
  - destruct (IH (qmin a x)) as [Hin Hle].
    destruct (qmin_cases a x) as (Hc & Ha & Hx).
    assert (Hm : foldl qmin (qmin a x) r ≤ qmin a x).
    { apply Hle, elem_of_cons. by left. }
    split.
    + rewrite !elem_of_cons. apply elem_of_cons in Hin.
      destruct Hin as [Heq|Hin]; [|by auto].
      rewrite Heq. destruct Hc as [Hc|Hc]; rewrite Hc; auto.
    + intros y Hy. rewrite !elem_of_cons in Hy.
      destruct Hy as [Hy|[Hy|Hy]].
      * rewrite Hy. by eapply Qcle_trans.
      * rewrite Hy. by eapply Qcle_trans.
      * apply Hle, elem_of_cons. by right.
Qed.

Lemma agg_max_is_max l : l ≠ [] → is_max (agg_max l) l.
Proof. destruct l; [done|]. intros _. apply foldl_qmax_is_max. Qed.

Lemma agg_min_is_min l : l ≠ [] → is_min (agg_min l) l.
Proof. destruct l; [done|]. intros _. apply foldl_qmin_is_min. Qed.

(** ** Columns and windows *)
Lemma col_length f bars : length (col f bars) = length bars.
Proof. apply length_map. Qed.

Lemma col_lookup f bars i : col f bars !! i = (λ b, Some (f b)) <$> bars !! i.
Proof. apply list_lookup_fmap. Qed.

Lemma all_num_Some l : all_num (map Some l) = Some l.
Proof. induction l as [|a l IH]; simpl; [done|]. by rewrite IH. Qed.

Lemma window_col f w i bars :
  window w i (col f bars) = map Some (f <$> last_bars w i bars).
Proof.
  unfold window, last_bars, col.
  rewrite <-fmap_drop, <-fmap_take. by rewrite <-list_fmap_compose.
Qed.

Lemma last_bars_length w i bars :
  (w ≤ S i)%nat → (i < length bars)%nat → length (last_bars w i bars) = w.
Proof.
  intros. unfold last_bars. rewrite length_take, length_drop. lia.
Qed.

Lemma rolling_length agg w xs : length (rolling agg w xs) = length xs.
Proof. apply length_imap. Qed.

Lemma rolling_lookup agg w xs i :
  (i < length xs)%nat →
  rolling agg w xs !! i
  = Some (if decide (w ≤ S i)%nat then agg <$> all_num (window w i xs) else NaN).
Proof.
  intros Hi. unfold rolling. rewrite list_lookup_imap.
  destruct (lookup_lt_is_Some_2 xs i Hi) as [x ->]. done.
Qed.

Lemma rolling_col_lookup agg f w bars i :
  (i < length bars)%nat →
  rolling agg w (col f bars) !! i
  = Some (if decide (w ≤ S i)%nat
          then Some (agg (f <$> last_bars w i bars)) else NaN).
Proof.
  intros Hi. rewrite rolling_lookup by by rewrite col_length.
  by rewrite window_col, all_num_Some.
Qed.

(** ** [rsv] *)
Lemma rsv_lookup bars i b :
  bars !! i = Some b →
  rsv bars !! i
  = Some (if decide (9 ≤ S i)%nat
          then
            let hi := agg_max (high <$> last_bars 9 i bars) in
            let lo := agg_min (low <$> last_bars 9 i bars) in
            rsv_cell (Some (close b)) (Some lo) (Some (hi - lo))
          else NaN).
Proof.
  intros Hb. assert (Hi : (i < length bars)%nat) by by eapply lookup_lt_Some.
  unfold rsv, den, high_9, low_9.
  rewrite !lookup_zip_with, col_lookup, Hb.
  rewrite !rolling_col_lookup by done. simpl.
  by destruct (decide (9 ≤ S i)%nat).
Qed.

Lemma rsv_length bars : length (rsv bars) = length bars.
Proof.
  unfold rsv, den, high_9, low_9.
  rewrite !length_zip_with, !rolling_length, !col_length. lia.
Qed.

(** C3.  At a bar [i] with fewer than 9 bars up to and including it, [rsv]
    is NaN (not 50).  With the window full, [hi] the greatest high and [lo]
    the least low of the 9 bars ending at [i]: [rsv] is 50 when
    [hi - lo = 0], and [(close - lo) / (hi - lo) * 100] otherwise. *)
Theorem rsv_spec (bars : list Bar) (i : nat) (b : Bar) :
  bars !! i = Some b →
  ((S i < 9)%nat → rsv bars !! i = Some NaN)
  ∧ ((9 ≤ S i)%nat →
     ∃ hi lo,
       length (last_bars 9 i bars) = 9%nat
       ∧ is_max hi (high <$> last_bars 9 i bars)
       ∧ is_min lo (low <$> last_bars 9 i bars)
       ∧ (hi - lo = 0 → rsv bars !! i = Some (Some (num 50)))
       ∧ (hi - lo ≠ 0 →
          rsv bars !! i
          = Some (Some ((close b - lo) / (hi - lo) * num 100)))).
Proof.
  intros Hb. assert (Hi : (i < length bars)%nat) by by eapply lookup_lt_Some.
  rewrite (rsv_lookup _ _ _ Hb). split; intros Hw.
  - by rewrite decide_False by lia.
  - rewrite decide_True by done.
    pose proof (last_bars_length 9 i bars Hw Hi) as Hlen.
    assert (Hne : ∀ f : Bar → Qc, f <$> last_bars 9 i bars ≠ []).
    { intros f Hnil. apply (f_equal length) in Hnil.
      rewrite length_fmap, Hlen in Hnil. done. }
    exists (agg_max (high <$> last_bars 9 i bars)),
           (agg_min (low <$> last_bars 9 i bars)).
    split_and!; [done | by apply agg_max_is_max | by apply agg_min_is_min | |].
    + intros Hz. simpl. unfold rsv_cell, fne. simpl.
      by rewrite (proj2 (Qceqb_eq _ _) Hz).
    + intros Hz. simpl. unfold rsv_cell, fne. simpl.
      destruct (Qceqb _ 0) eqn:E; [by apply Qceqb_eq in E|done].
Qed.

Lemma rsv_spec_witness :
  map ramp (seq 0 10) !! 9%nat = Some (ramp 9)
  ∧ rsv (map ramp (seq 0 10)) !! 0%nat = Some NaN
  ∧ ∃ x, rsv (map ramp (seq 0 10)) !! 9%nat = Some (Some x).
Proof.
  assert (H9 : map ramp (seq 0 10) !! 9%nat = Some (ramp 9)) by reflexivity.
  assert (H0 : map ramp (seq 0 10) !! 0%nat = Some (ramp 0)) by reflexivity.
  split_and!; [done | |].
  - apply (rsv_spec _ _ _ H0). lia.
  - destruct (proj2 (rsv_spec _ _ _ H9)) as (hi & lo & _ & _ & _ & Hz & Hnz);
      [lia|].
    destruct (decide (hi - lo = 0)) as [E|E]; eauto.
Defined.

(** ** Lengths: every column is as long as the frame *)
Lemma shift1_length xs : length (shift1 xs) = length xs.
Proof. unfold shift1. rewrite length_take. simpl. lia. Qed.

Lemma ewm_from_length alpha st xs : length (ewm_from alpha st xs) = length xs.
Proof.
  revert st. induction xs as [|x xs IH]; intros st; simpl; [done|].
  by rewrite IH.
Qed.

Lemma ewm_mean_length span xs : length (ewm_mean span xs) = length xs.
Proof. destruct xs; simpl; [done|]. by rewrite ewm_from_length. Qed.

Lemma sort_values_length bars : length (sort_values bars) = length bars.
Proof. apply Permutation_length, merge_sort_Permutation. Qed.

Lemma sma_length xs n m r : sma xs n m = Some r → length r = length xs.
Proof.
  destruct xs as [|x0 xs]; [done|]. rewrite sma_unfold. intros [= <-].
  simpl. by rewrite sma_from_length.
Qed.

Lemma sma_is_Some xs n m : xs ≠ [] → ∃ r, sma xs n m = Some r.
Proof. destruct xs as [|x0 xs]; [done|]. rewrite sma_unfold. eauto. Qed.

Create HintDb cols.
Create Rewrite HintDb collen.
#[export] Hint Rewrite @length_zip_with @length_map @length_fmap
  @length_replicate rolling_length col_length shift1_length ewm_mean_length
  rsv_length : collen.

Ltac col_length :=
  repeat autounfold with cols; autorewrite with collen; try lia.

#[export] Hint Unfold Cols.H Cols.L Cols.C Cols.O Cols.VOL Cols.AMOUNT
  Cols.REF_C_1 Cols.REF_VOL_1 Cols.J_OK_of Cols.REAL_YANG Cols.REAL_YIN
  Cols.FAKE_YANG Cols.FAKE_YIN Cols.vol_sum Cols.VOL_YANG21 Cols.VOL_YIN21
  Cols.VOL_YANG14 Cols.VOL_YIN14 Cols.VOL_FAKEYANG21 Cols.VOL_FAKEYIN21
  Cols.VOL_FAKEYANG14 Cols.VOL_FAKEYIN14 Cols.VOL_FAKEYANG10
  Cols.VOL_FAKEYIN10 Cols.exceeds Cols.YANGYIN_OK Cols.A28 Cols.lq Cols.mvok
  Cols.maxvol28 Cols.rolling_count Cols.is_zero Cols.max28_count
  Cols.max28_ok Cols.AVG40 Cols.plry
  Cols.plry_cnt Cols.V40P Cols.bd Cols.bigv Cols.llv_c_40 Cols.hhv_c_40
  Cols.R55 Cols.posok Cols.trigger Cols.DIF Cols.DEA Cols.macd_ok
  macd_default calculate_macd band bor bnot as_float mask_mul : cols.

Lemma AMOUNT_length amt bars : length (Cols.AMOUNT amt bars) = length bars.
Proof. unfold Cols.AMOUNT. destruct amt; col_length. Qed.

Lemma trigger_length bars : length (Cols.trigger bars) = length bars.
Proof. col_length. Qed.

Lemma lq_length amt bars : length (Cols.lq amt bars) = length bars.
Proof. unfold Cols.lq, Cols.A28. autorewrite with collen. apply AMOUNT_length. Qed.

Lemma mvok_length bars : length (Cols.mvok bars) = length bars.
Proof. col_length. Qed.

Lemma max28_ok_length bars : length (Cols.max28_ok bars) = length bars.
Proof. col_length. Qed.

Lemma YANGYIN_OK_length bars : length (Cols.YANGYIN_OK bars) = length bars.
Proof. col_length. Qed.

Lemma DIF_length bars : length (Cols.DIF bars) = length bars.
Proof. col_length. simpl. col_length. Qed.

Lemma macd_ok_length bars : length (Cols.macd_ok bars) = length bars.
Proof. unfold Cols.macd_ok. rewrite length_map. apply DIF_length. Qed.

Lemma J_OK_of_length j : length (Cols.J_OK_of j) = length j.
Proof. apply length_map. Qed.

(** ** [calculate_kdj] returns on a frame with a row *)
Lemma calculate_kdj_Some bars :
  bars ≠ [] →
  ∃ k d,
    sma (rsv bars) (num 3) 1 = Some k
    ∧ sma k (num 3) 1 = Some d
    ∧ calculate_kdj bars = Some (k, d, zip_with j_cell k d)
    ∧ length k = length bars ∧ length d = length bars.
Proof.
  intros Hne. unfold calculate_kdj.
  assert (Hr : rsv bars ≠ []).
  { intros E. apply (f_equal length) in E. rewrite rsv_length in E.
    destruct bars; [done|]. simpl in E. lia. }
  destruct (sma_is_Some (rsv bars) (num 3) 1 Hr) as [k Hk].
  pose proof (sma_length _ _ _ _ Hk) as Hkl. rewrite rsv_length in Hkl.
  assert (Hk' : k ≠ []).
  { intros ->. destruct bars; [done|]. simpl in Hkl. lia. }
  destruct (sma_is_Some k (num 3) 1 Hk') as [d Hd].
  pose proof (sma_length _ _ _ _ Hd) as Hdl.
  exists k, d. rewrite Hk, Hd. split_and!; try done. congruence.
Qed.

(** ** The last row of columns *)
Lemma last_is_Some_length {A} (l : list A) :
  (0 < length l)%nat → ∃ x, last l = Some x.
Proof.
  intros Hl. apply last_is_Some. intros ->. simpl in Hl. lia.
Qed.

Lemma last_zip_with {A B C} (f : A → B → C) (l : list A) (k : list B) x y :
  length l = length k → last l = Some x → last k = Some y →
  last (zip_with f l k) = Some (f x y).
Proof.
  intros Hlen. rewrite !last_lookup, lookup_zip_with, length_zip_with.
  rewrite <-Hlen, Nat.min_id. intros -> ->. done.
Qed.

Lemma last_map {A B} (f : A → B) (l : list A) x :
  last l = Some x → last (map f l) = Some (f x).
Proof.
  rewrite !last_lookup, length_map. intros Hx.
  change (map f l) with (f <$> l). by rewrite list_lookup_fmap, Hx.
Qed.

Lemma last_replicate {A} (n : nat) (x : A) :
  (0 < n)%nat → last (replicate n x) = Some x.
Proof.
  intros Hn. rewrite last_lookup, length_replicate.
  apply lookup_replicate_2. lia.
Qed.

(** ** What [analyze_stock] returns on 60 rows or more *)
Lemma analyze_stock_ge60 (df : DataFrame) :
  (60 ≤ length (rows df))%nat →
  ∃ k d latest vJ vDIF trig lq max28 yy,
    let bars := sort_values (rows df) in
    let j := zip_with j_cell k d in
    let j_ok := fle vJ (Some (num 13)) in
    let macd := fgt vDIF (Some 0) in
    let xg := j_ok && trig && lq && true && max28 && yy && macd in
    calculate_kdj bars = Some (k, d, j)
    ∧ last bars = Some latest
    ∧ last k ≠ None ∧ last d ≠ None
    ∧ last j = Some vJ
    ∧ last (Cols.DIF bars) = Some vDIF
    ∧ last (Cols.J_OK_of j) = Some j_ok
    ∧ last (Cols.trigger bars) = Some trig
    ∧ last (Cols.lq (has_amount df) bars) = Some lq
    ∧ last (Cols.max28_ok bars) = Some max28
    ∧ last (Cols.YANGYIN_OK bars) = Some yy
    ∧ last (Cols.macd_ok bars) = Some macd
    ∧ analyze_stock df
      = Some {| r_date := date latest;
                stock_code := None;
                selected := xg;
                indicators :=
                  indicators_of vJ vDIF xg trig lq max28 yy macd;
                raw_data := latest |}.
Proof.
  intros Hlen. set (bars := sort_values (rows df)).
  assert (Hb : length bars = length (rows df)) by apply sort_values_length.
  assert (Hpos : (0 < length bars)%nat) by lia.
  assert (Hne : bars ≠ []) by (intros E; rewrite E in Hpos; simpl in Hpos; lia).
  destruct (calculate_kdj_Some bars Hne) as (k & d & _ & _ & Hkdj & Hk & Hd).
  set (j := zip_with j_cell k d).
  assert (Hj : length j = length bars).
  { unfold j. rewrite length_zip_with. lia. }
  destruct (last_is_Some_length bars Hpos) as [latest Hlatest].
  destruct (last_is_Some_length j ltac:(lia)) as [vJ HvJ].
  destruct (last_is_Some_length (Cols.DIF bars)
              ltac:(rewrite DIF_length; lia)) as [vDIF HvDIF].
  destruct (last_is_Some_length (Cols.trigger bars)
              ltac:(rewrite trigger_length; lia)) as [trig Htrig].
  destruct (last_is_Some_length (Cols.lq (has_amount df) bars)
              ltac:(rewrite lq_length; lia)) as [lq Hlq].
  destruct (last_is_Some_length (Cols.max28_ok bars)
              ltac:(rewrite max28_ok_length; lia)) as [max28 Hmax].
  destruct (last_is_Some_length (Cols.YANGYIN_OK bars)
              ltac:(rewrite YANGYIN_OK_length; lia)) as [yy Hyy].
  exists k, d, latest, vJ, vDIF, trig, lq, max28, yy. cbn zeta.
  fold bars. fold j.
  assert (Hjok : last (Cols.J_OK_of j) = Some (fle vJ (Some (num 13)))).
  { unfold Cols.J_OK_of. by rewrite (last_map _ _ _ HvJ). }
  assert (Hmacd : last (Cols.macd_ok bars) = Some (fgt vDIF (Some 0))).
  { unfold Cols.macd_ok. by rewrite (last_map _ _ _ HvDIF). }
  assert (Hmv : last (Cols.mvok bars) = Some true).
  { unfold Cols.mvok. by apply last_replicate. }
  assert (Hxg : last (Cols.xg_of (has_amount df) bars (Cols.J_OK_of j))
                = Some (fle vJ (Some (num 13)) && trig && lq && true
                        && max28 && yy && fgt vDIF (Some 0))).
  { unfold Cols.xg_of, band.
    repeat (apply last_zip_with;
            [autorewrite with collen;
             rewrite ?J_OK_of_length, ?trigger_length, ?lq_length,
               ?mvok_length, ?max28_ok_length, ?YANGYIN_OK_length,
               ?macd_ok_length; lia | | done]).
    done. }
  split_and!; try done.
  - apply not_eq_None_Some, last_is_Some. intros ->.
    simpl in Hk. lia.
  - apply not_eq_None_Some, last_is_Some. intros ->.
    simpl in Hd. lia.
  - unfold analyze_stock. rewrite decide_False by lia. cbn zeta.
    fold bars. rewrite Hkdj. simpl. fold j.
    rewrite Hlatest, HvJ, HvDIF, Hxg, Htrig, Hlq, Hmax, Hyy, Hmacd.
    done.
Qed.

Lemma Qcleb_decide a b : Qcleb a b = bool_decide (a ≤ b).
Proof.
  destruct (Qcleb a b) eqn:E; symmetry.
  - by apply bool_decide_eq_true, Qcleb_le.
  - apply bool_decide_eq_false. intros H%Qcleb_le. congruence.
Qed.

Lemma Qcltb_decide a b : Qcltb a b = bool_decide (a < b).
Proof.
  destruct (Qcltb a b) eqn:E; symmetry.
  - by apply bool_decide_eq_true, Qcltb_lt.
  - apply bool_decide_eq_false. intros H%Qcltb_lt. congruence.
Qed.

Lemma Qceqb_decide a b : Qceqb a b = bool_decide (a = b).
Proof.
  destruct (Qceqb a b) eqn:E; symmetry.
  - by apply bool_decide_eq_true, Qceqb_eq.
  - apply bool_decide_eq_false. intros H%Qceqb_eq. congruence.
Qed.

Lemma fle_holds x c : fle x (Some c) = holds (λ a, a ≤ c) x.
Proof. destruct x; simpl; [apply Qcleb_decide|done]. Qed.

Lemma fge_holds x c : fge x (Some c) = holds (λ a, c ≤ a) x.
Proof. destruct x; simpl; [apply Qcleb_decide|done]. Qed.

Lemma fgt_holds x c : fgt x (Some c) = holds (λ a, c < a) x.
Proof. destruct x; simpl; [apply Qcltb_decide|done]. Qed.

Lemma feq_holds x c : feq x (Some c) = holds (λ a, a = c) x.
Proof. destruct x; simpl; [apply Qceqb_decide|done]. Qed.

(** ** The market-value check *)
Lemma check_market_value_selected spot_dict code r :
  selected (check_market_value spot_dict code r)
  = MarketCapFloor spot_dict code && selected r.
Proof.
  unfold check_market_value, MarketCapFloor.
  destruct (spot_dict !! code) as [mv|]; simpl; [|done].
  rewrite Qcltb_leb, Qcleb_decide. by destruct (bool_decide _).
Qed.

Lemma select_one_eq spot_dict code df r0 :
  analyze_stock df = Some r0 →
  select_one spot_dict code df
  = Some (check_market_value spot_dict code (set_stock_code code r0)).
Proof. intros H. unfold select_one. by rewrite H. Qed.

(** C4.  A frame of exactly 59 rows yields no result ([None], which the
    loop skips, not an exception); the same frame with one more row yields
    exactly one. *)
Theorem analyze_stock_threshold (df : DataFrame) (b : Bar)
    (spot : option (gmap string Qc)) (code : string) :
  length (rows df) = 59%nat →
  let df60 := {| has_amount := has_amount df; rows := rows df ++ [b] |} in
  analyze_stock df = None
  ∧ analysed spot [(code, df)] = []
  ∧ ∃ r, analyze_stock df60 = Some r
       ∧ analysed spot [(code, df60)]
         = [check_market_value (load_spot_dict spot) code
              (set_stock_code code r)].
Proof.
  intros Hlen df60.
  assert (H0 : analyze_stock df = None).
  { unfold analyze_stock. by rewrite decide_True by lia. }
  assert (H60 : (60 ≤ length (rows df60))%nat).
  { unfold df60. simpl. rewrite length_app. simpl. lia. }
  destruct (analyze_stock_ge60 df60 H60)
    as (k & d & latest & vJ & vDIF & trig & lq & max28 & yy & Hr).
  cbn zeta in Hr. destruct Hr as (_&_&_&_&_&_&_&_&_&_&_&_&Hr).
  split_and!; [done | |].
  - unfold analysed, select_one. simpl. by rewrite H0.
  - eexists. split; [exact Hr|].
    unfold analysed. simpl. by rewrite (select_one_eq _ _ _ _ Hr).
Qed.

Lemma analyze_stock_threshold_witness :
  length (rows (flat_frame 59)) = 59%nat
  ∧ analyze_stock (flat_frame 59) = None
  ∧ ∃ r, analyze_stock
           {| has_amount := true; rows := flat_rows 59 ++ [dip_bar] |}
         = Some r.
Proof.
  assert (H : length (rows (flat_frame 59)) = 59%nat) by reflexivity.
  destruct (analyze_stock_threshold (flat_frame 59) dip_bar None "600000" H)
    as (H0 & _ & r & Hr & _).
  split_and!; [exact H | exact H0 | exists r; exact Hr].
Defined.

Lemma A28_length amt bars : length (Cols.A28 amt bars) = length bars.
Proof. unfold Cols.A28. autorewrite with collen. apply AMOUNT_length. Qed.

Lemma max28_count_length bars : length (Cols.max28_count bars) = length bars.
Proof. col_length. Qed.

Lemma last_map_inv {A B} (f : A → B) (l : list A) y :
  last (map f l) = Some y → ∃ x, last l = Some x ∧ y = f x.
Proof.
  intros Hy. destruct (last l) as [x|] eqn:E.
  - rewrite (last_map f l x E) in Hy. exists x. split; congruence.
  - apply last_None in E. by subst.
Qed.

(** C2.  For a frame of 60 rows or more and any market-value table, the
    flag reported for the instrument is the conjunction, at the last bar, of
    J_OK, Trigger, Liquidity, MarketCapFloor, PeakVolume_OK,
    VolumeBalance_OK and MACD_OK, where a predicate on an undefined cell is
    false ([holds]). *)
Theorem selected_is_conjunction (spot_dict : gmap string Qc) (code : string)
    (df : DataFrame) :
  (60 ≤ length (rows df))%nat →
  ∃ r k d j vJ vA28 vCnt vDIF Trigger VolumeBalance_OK,
    let bars := sort_values (rows df) in
    select_one spot_dict code df = Some r
    ∧ calculate_kdj bars = Some (k, d, j)
    ∧ last j = Some vJ
    ∧ last (Cols.trigger bars) = Some Trigger
    ∧ last (Cols.A28 (has_amount df) bars) = Some vA28
    ∧ last (Cols.max28_count bars) = Some vCnt
    ∧ last (Cols.YANGYIN_OK bars) = Some VolumeBalance_OK
    ∧ last (Cols.DIF bars) = Some vDIF
    ∧ selected r
      = holds (λ x, x ≤ num 13) vJ
        && Trigger
        && holds (λ x, frac 5 1000 ≤ x) vA28
        && MarketCapFloor spot_dict code
        && holds (λ x, x = 0) vCnt
        && VolumeBalance_OK
        && holds (λ x, 0 < x) vDIF.
Proof.
  intros Hlen.
  destruct (analyze_stock_ge60 df Hlen)
    as (k & d & latest & vJ & vDIF & trig & lq & max28 & yy & Hr).
  cbn zeta in Hr.
  destruct Hr as (Hkdj&_&_&_&HvJ&HvDIF&_&Htrig&Hlq&Hmax&Hyy&_&Hr).
  apply last_map_inv in Hlq as (vA28 & HvA & ->).
  apply last_map_inv in Hmax as (vCnt & HvC & ->).
  exists (check_market_value spot_dict code (set_stock_code code
            {| r_date := date latest; stock_code := None;
               selected := fle vJ (Some (num 13)) && trig
                           && fge vA28 (Some (frac 5 1000)) && true
                           && feq vCnt (Some 0) && yy && fgt vDIF (Some 0);
               indicators := indicators_of vJ vDIF
                 (fle vJ (Some (num 13)) && trig
                  && fge vA28 (Some (frac 5 1000)) && true
                  && feq vCnt (Some 0) && yy && fgt vDIF (Some 0))
                 trig (fge vA28 (Some (frac 5 1000)))
                 (feq vCnt (Some 0)) yy (fgt vDIF (Some 0));
               raw_data := latest |})).
  exists k, d, (zip_with j_cell k d), vJ, vA28, vCnt, vDIF, trig, yy.
  cbn zeta. split_and!; try done.
  - by apply select_one_eq.
  - rewrite check_market_value_selected. unfold set_stock_code.
    cbn [selected]. rewrite fle_holds, fge_holds, feq_holds, fgt_holds.
    generalize (holds (λ x, x ≤ num 13) vJ) (holds (λ x, frac 5 1000 ≤ x) vA28)
      (holds (λ x, x = 0) vCnt) (holds (λ x, 0 < x) vDIF)
      (MarketCapFloor spot_dict code).
    by intros [] [] [] [] []; destruct trig, yy.
Qed.

Lemma selected_is_conjunction_witness :
  (60 ≤ length (rows (flat_frame 60)))%nat
  ∧ ∃ r, select_one ∅ "600000" (flat_frame 60) = Some r.
Proof.
  assert (H : (60 ≤ length (rows (flat_frame 60)))%nat) by (vm_compute; lia).
  destruct (selected_is_conjunction ∅ "600000" (flat_frame 60) H)
    as (r & k & d & j & vJ & vA & vC & vD & t & y & Hr & _).
  split; [exact H | exists r; exact Hr].
Defined.

(** ** An instrument without a market-value entry *)
Lemma load_spot_dict_missing spot code :
  (spot = None ∨ ∃ t, spot = Some t ∧ t !! code = None) →
  load_spot_dict spot !! code = None.
Proof.
  intros [-> | (t & -> & Ht)]; simpl; [done|].
  by rewrite lookup_fmap, Ht.
Qed.

(** C8.  When the table has no entry for the instrument, or fetching the
    snapshot failed, MarketCapFloor passes: the report has [MVOK = True] and
    [MV = None], every other entry is as [analyze_stock] left it, and the
    flag is the conjunction of the six remaining predicates; a result is
    returned all the same. *)
Theorem market_cap_unavailable (spot : option (gmap string Qc))
    (code : string) (df : DataFrame) :
  (spot = None ∨ ∃ t, spot = Some t ∧ t !! code = None) →
  (60 ≤ length (rows df))%nat →
  ∃ r0 r k d j J_OK Trigger Liquidity PeakVolume_OK VolumeBalance_OK MACD_OK,
    let bars := sort_values (rows df) in
    analyze_stock df = Some r0
    ∧ select_one (load_spot_dict spot) code df = Some r
    ∧ MarketCapFloor (load_spot_dict spot) code = true
    ∧ indicators r !! "MVOK" = Some (VBool true)
    ∧ indicators r !! "MV" = Some VNone
    ∧ (∀ key, key ≠ "MV" → key ≠ "MVOK" →
         indicators r !! key = indicators r0 !! key)
    ∧ selected r = selected r0
    ∧ calculate_kdj bars = Some (k, d, j)
    ∧ last (Cols.J_OK_of j) = Some J_OK
    ∧ last (Cols.trigger bars) = Some Trigger
    ∧ last (Cols.lq (has_amount df) bars) = Some Liquidity
    ∧ last (Cols.max28_ok bars) = Some PeakVolume_OK
    ∧ last (Cols.YANGYIN_OK bars) = Some VolumeBalance_OK
    ∧ last (Cols.macd_ok bars) = Some MACD_OK
    ∧ selected r
      = J_OK && Trigger && Liquidity && PeakVolume_OK && VolumeBalance_OK
        && MACD_OK.
Proof.
  intros Hmiss Hlen. apply load_spot_dict_missing in Hmiss.
  destruct (analyze_stock_ge60 df Hlen)
    as (k & d & latest & vJ & vDIF & trig & lq & max28 & yy & Hr).
  cbn zeta in Hr.
  destruct Hr as (Hkdj&_&_&_&HvJ&HvDIF&Hjok&Htrig&Hlq&Hmax&Hyy&Hmacd&Hr).
  eexists _, _, k, d, _, _, trig, lq, max28, yy, _. cbn zeta.
  split; [exact Hr|].
  split; [by apply select_one_eq|].
  unfold MarketCapFloor, check_market_value. rewrite Hmiss. simpl.
  split_and!; try done.
  - intros key H1 H2. by rewrite !lookup_insert_ne by done.
  - by destruct (fle vJ _), trig, lq.
Qed.

Lemma market_cap_unavailable_witness :
  ((None : option (gmap string Qc)) = None
   ∨ ∃ t, (None : option (gmap string Qc)) = Some t
          ∧ t !! "600000" = None)
  ∧ (60 ≤ length (rows (flat_frame 60)))%nat
  ∧ ∃ r, select_one (load_spot_dict None) "600000" (flat_frame 60) = Some r
       ∧ indicators r !! "MVOK" = Some (VBool true).
Proof.
  assert (H1 : (None : option (gmap string Qc)) = None
               ∨ ∃ t, (None : option (gmap string Qc)) = Some t
                      ∧ t !! "600000" = None) by (left; reflexivity).
  assert (H2 : (60 ≤ length (rows (flat_frame 60)))%nat) by (vm_compute; lia).
  destruct (market_cap_unavailable None "600000" (flat_frame 60) H1 H2)
    as (r0 & r & k & d & j & a & b & c & e & f & g & _ & Hr & _ & Hmv & _).
  split_and!; [exact H1 | exact H2 | exists r; split; [exact Hr | exact Hmv]].
Defined.

(** ** The [J_OK] entry of the report *)
Lemma J_OK_entry_is_xg (df : DataFrame) :
  (60 ≤ length (rows df))%nat →
  ∃ r vJ,
    analyze_stock df = Some r
    ∧ indicators r !! "J" = Some (VNum vJ)
    ∧ indicators r !! "J_OK"
      = Some (VBool (if isna vJ then false else selected r)).
Proof.
  intros Hlen.
  destruct (analyze_stock_ge60 df Hlen)
    as (k & d & latest & vJ & vDIF & trig & lq & max28 & yy & Hr).
  cbn zeta in Hr. destruct Hr as (_&_&_&_&_&_&_&_&_&_&_&_&Hr).
  eexists _, vJ. split; [exact Hr|]. done.
Qed.

(** C6.  On [dip_frame] (59 flat days, then a close at the day's low),
    [J] is [100/9] at the last bar, which is at most 13, and the J_OK column
    is true there; yet the ["J_OK"] entry of the report is [False]: it holds
    the selection flag [XG], which is false because Trigger is. *)
Theorem J_OK_entry_on_dip :
  ∃ r k d j,
    analyze_stock dip_frame = Some r
    ∧ calculate_kdj (sort_values (rows dip_frame)) = Some (k, d, j)
    ∧ last j = Some (Some (frac 100 9))
    ∧ frac 100 9 ≤ num 13
    ∧ last (Cols.J_OK_of j) = Some true
    ∧ indicators r !! "J" = Some (VNum (Some (frac 100 9)))
    ∧ indicators r !! "J_OK" = Some (VBool false)
    ∧ indicators r !! "TRIGGER" = Some (VBool false)
    ∧ selected r = false.
Proof.
  destruct (analyze_stock dip_frame) as [r|] eqn:Hr; [|by vm_compute in Hr].
  destruct (calculate_kdj (sort_values (rows dip_frame))) as [[[k d] j]|] eqn:Hk;
    [|by vm_compute in Hk].
  exists r, k, d, j.
  vm_compute in Hr. vm_compute in Hk.
  injection Hr as <-. injection Hk as <- <- <-.
  split_and!; try done; compute_done.
Qed.

(** ** The flat Series *)
Lemma col_const (f : Bar → Qc) (c : Qc) bars :
  Forall (λ b, f b = c) bars → col f bars = replicate (length bars) (Some c).
Proof.
  induction 1 as [|b bars Hb _ IH]; simpl; [done|]. by rewrite Hb, IH.
Qed.

Lemma flat_rows_flat n : Forall is_flat (flat_rows n).
Proof.
  unfold flat_rows. change map with (@fmap list _) at 1.
  apply Forall_fmap, Forall_forall. intros i _. by repeat split.
Qed.

Lemma flat_rows_length n : length (flat_rows n) = n.
Proof. unfold flat_rows. by rewrite length_map, length_seq. Qed.

Lemma sort_values_flat bars : Forall is_flat bars → Forall is_flat (sort_values bars).
Proof.
  intros H. unfold sort_values. by rewrite merge_sort_Permutation.
Qed.

Lemma rsv_ext a b :
  col high a = col high b → col low a = col low b →
  col close a = col close b → rsv a = rsv b.
Proof.
  intros Hh Hl Hc. unfold rsv, den, high_9, low_9. by rewrite Hh, Hl, Hc.
Qed.

Lemma flat_cols bars :
  Forall is_flat bars →
  col high bars = col high (flat_rows (length bars))
  ∧ col low bars = col low (flat_rows (length bars))
  ∧ col close bars = col close (flat_rows (length bars)).
Proof.
  intros Hf. pose proof (flat_rows_flat (length bars)) as Hg.
  split_and!.
  - rewrite (col_const high (num 100) bars),
      (col_const high (num 100) (flat_rows _)), flat_rows_length; [done|..];
      eapply Forall_impl; eauto; by intros ? (?&?&?&?&?).
  - rewrite (col_const low (num 100) bars),
      (col_const low (num 100) (flat_rows _)), flat_rows_length; [done|..];
      eapply Forall_impl; eauto; by intros ? (?&?&?&?&?).
  - rewrite (col_const close (num 100) bars),
      (col_const close (num 100) (flat_rows _)), flat_rows_length; [done|..];
      eapply Forall_impl; eauto; by intros ? (?&?&?&?&?).
Qed.

(** C5.  For 70 bars with open = high = low = close = 100 and volume 1000:
    [rsv] is 50 wherever the 9-bar window is full; K, D and J are 50 at the
    last bar; J_OK is false there (13 < 50); and the instrument is not
    selected, whatever the dates, the amounts and the market-value table. *)
Theorem flat_series_not_selected (df : DataFrame)
    (spot_dict : gmap string Qc) (code : string) :
  length (rows df) = 70%nat → Forall is_flat (rows df) →
  ∃ k d j r0 r,
    let bars := sort_values (rows df) in
    (∀ i, (8 ≤ i < 70)%nat → rsv bars !! i = Some (Some (num 50)))
    ∧ calculate_kdj bars = Some (k, d, j)
    ∧ last k = Some (Some (num 50))
    ∧ last d = Some (Some (num 50))
    ∧ last j = Some (Some (num 50))
    ∧ num 13 < num 50
    ∧ last (Cols.J_OK_of j) = Some false
    ∧ analyze_stock df = Some r0 ∧ selected r0 = false
    ∧ select_one spot_dict code df = Some r ∧ selected r = false.
Proof.
  intros Hlen Hflat. set (bars := sort_values (rows df)).
  assert (Hb : length bars = 70%nat).
  { unfold bars. by rewrite sort_values_length. }
  destruct (flat_cols bars (sort_values_flat _ Hflat)) as (Hh & Hl & Hc).
  rewrite Hb in Hh, Hl, Hc.
  assert (Hrsv : rsv bars = replicate 8 NaN ++ replicate 62 (Some (num 50))).
  { rewrite (rsv_ext _ _ Hh Hl Hc). compute_done. }
  destruct (analyze_stock_ge60 df ltac:(lia))
    as (k & d & latest & vJ & vDIF & trig & lq & max28 & yy & Hr).
  cbn zeta in Hr. fold bars in Hr.
  destruct Hr as (Hkdj&_&_&_&HvJ&_&Hjok&_&_&_&_&_&Hr).
  assert (Hkdj0 : calculate_kdj bars
                  = Some (replicate 8 NaN ++ replicate 62 (Some (num 50)),
                          replicate 8 NaN ++ replicate 62 (Some (num 50)),
                          replicate 8 NaN ++ replicate 62 (Some (num 50)))).
  { assert (Hs : sma (replicate 8 NaN ++ replicate 62 (Some (num 50)))
                   (num 3) 1
                 = Some (replicate 8 NaN ++ replicate 62 (Some (num 50))))
      by compute_done.
    assert (Hz : zip_with j_cell
                   (replicate 8 NaN ++ replicate 62 (Some (num 50)))
                   (replicate 8 NaN ++ replicate 62 (Some (num 50)))
                 = replicate 8 NaN ++ replicate 62 (Some (num 50)))
      by compute_done.
    unfold calculate_kdj. rewrite Hrsv, Hs, Hs, Hz. reflexivity. }
  rewrite Hkdj0 in Hkdj. injection Hkdj as <- <- Hj.
  rewrite <-Hj in HvJ, Hjok.
  assert (HvJ50 : vJ = Some (num 50)).
  { apply (inj Some). rewrite <-HvJ. reflexivity. }
  subst vJ.
  assert (Hfalse : fle (Some (num 50)) (Some (num 13)) = false)
    by reflexivity.
  rewrite Hfalse in Hjok, Hr.
  eexists _, _, _, _, _. cbn zeta. fold bars.
  split_and!; [ | exact Hkdj0 | reflexivity | reflexivity | reflexivity
              | reflexivity | exact Hjok
              | exact Hr | reflexivity | by apply select_one_eq | ].
  - intros i Hi. rewrite Hrsv. rewrite lookup_app_r by (simpl; lia).
    apply lookup_replicate_2. simpl. lia.
  - rewrite check_market_value_selected. apply andb_false_r.
Qed.

Lemma flat_series_not_selected_witness :
  length (rows (flat_frame 70)) = 70%nat
  ∧ Forall is_flat (rows (flat_frame 70))
  ∧ ∃ r, select_one ∅ "600000" (flat_frame 70) = Some r ∧ selected r = false.
Proof.
  assert (H1 : length (rows (flat_frame 70)) = 70%nat) by reflexivity.
  assert (H2 : Forall is_flat (rows (flat_frame 70))).
  { repeat (constructor; [repeat split; reflexivity|]). constructor. }
  destruct (flat_series_not_selected (flat_frame 70) ∅ "600000" H1 H2)
    as (k & d & j & r0 & r & _ & _ & _ & _ & _ & _ & _ & _ & _ & Hr & Hs).
  split_and!; [exact H1 | exact H2 | exists r; split; [exact Hr | exact Hs]].
Defined.

(** ** Candle labels *)
Lemma shift1_lookup_0 x xs : shift1 (x :: xs) !! 0%nat = Some NaN.
Proof. done. Qed.

Lemma shift1_lookup_S xs i :
  (S i < length xs)%nat → shift1 xs !! S i = xs !! i.
Proof.
  intros Hi. unfold shift1. rewrite lookup_take_lt by done. done.
Qed.

Lemma REF_C_1_first bars b :
  bars !! 0%nat = Some b → Cols.REF_C_1 bars !! 0%nat = Some NaN.
Proof. destruct bars; [done|]. intros _. apply shift1_lookup_0. Qed.

Lemma REF_C_1_next bars i p b :
  bars !! i = Some p → bars !! S i = Some b →
  Cols.REF_C_1 bars !! S i = Some (Some (close p)).
Proof.
  intros Hp Hb. unfold Cols.REF_C_1, Cols.C.
  rewrite shift1_lookup_S.
  - by rewrite col_lookup, Hp.
  - rewrite col_length. by eapply lookup_lt_Some.
Qed.

Lemma labels_lookup bars i b r :
  bars !! i = Some b → Cols.REF_C_1 bars !! i = Some r →
  Cols.REAL_YANG bars !! i
  = Some (Qcltb (open b) (close b) && negb (flt (Some (close b)) r))
  ∧ Cols.REAL_YIN bars !! i
    = Some (Qcltb (close b) (open b) && negb (fgt (Some (close b)) r))
  ∧ Cols.FAKE_YANG bars !! i = Some (negb (flt (Some (close b)) r))
  ∧ Cols.FAKE_YIN bars !! i = Some (negb (fgt (Some (close b)) r)).
Proof.
  intros Hb Hr.
  unfold Cols.REAL_YANG, Cols.REAL_YIN, Cols.FAKE_YANG, Cols.FAKE_YIN,
    band, bnot.
  change (map negb ?l) with (negb <$> l).
  rewrite !lookup_zip_with, !list_lookup_fmap, !lookup_zip_with.
  unfold Cols.C, Cols.O. rewrite !col_lookup, Hb, Hr. done.
Qed.

Lemma spec_label_lookup_S f bars i p b :
  bars !! i = Some p → bars !! S i = Some b →
  spec_label f bars !! S i = Some (Some (f b p)).
Proof.
  intros Hp Hb. unfold spec_label. rewrite list_lookup_imap, Hb. simpl.
  by rewrite Hp.
Qed.

(** C7, as amended.  At bar 0 the comparisons with the missing previous
    close are false, so the loose labels are both true and the real labels
    are [close > open] and [close < open]; from bar 1 on the four labels are
    the comparisons the specification states. *)
Theorem candle_labels (bars : list Bar) :
  (∀ b, bars !! 0%nat = Some b →
     Cols.REAL_YANG bars !! 0%nat = Some (bool_decide (open b < close b))
     ∧ Cols.REAL_YIN bars !! 0%nat = Some (bool_decide (close b < open b))
     ∧ Cols.FAKE_YANG bars !! 0%nat = Some true
     ∧ Cols.FAKE_YIN bars !! 0%nat = Some true)
  ∧ (∀ i, (1 ≤ i)%nat →
     (Some <$> Cols.REAL_YANG bars) !! i = spec_RealBullish bars !! i
     ∧ (Some <$> Cols.REAL_YIN bars) !! i = spec_RealBearish bars !! i
     ∧ (Some <$> Cols.FAKE_YANG bars) !! i = spec_LooseBullish bars !! i
     ∧ (Some <$> Cols.FAKE_YIN bars) !! i = spec_LooseBearish bars !! i).
Proof.
  split.
  - intros b Hb.
    destruct (labels_lookup bars 0 b NaN Hb (REF_C_1_first _ _ Hb))
      as (H1 & H2 & H3 & H4).
    rewrite H1, H2, H3, H4. simpl. rewrite !andb_true_r.
    by rewrite !Qcltb_decide.
  - intros [|i] Hi; [lia|]. clear Hi.
    destruct (bars !! S i) as [b|] eqn:Hb.
    + destruct (lookup_lt_is_Some_2 bars i) as [p Hp].
      { apply lookup_lt_Some in Hb. lia. }
      destruct (labels_lookup bars (S i) b _ Hb (REF_C_1_next _ _ _ _ Hp Hb))
        as (H1 & H2 & H3 & H4).
      unfold spec_RealBullish, spec_RealBearish, spec_LooseBullish,
        spec_LooseBearish.
      rewrite !list_lookup_fmap, H1, H2, H3, H4.
      rewrite !(spec_label_lookup_S _ _ _ _ _ Hp Hb). simpl.
      by rewrite !Qcltb_decide.
    + assert (Hlen : (length bars ≤ S i)%nat) by by apply lookup_ge_None.
      assert (Hn : ∀ l : list bool, length l = length bars →
                     (Some <$> l) !! S i = None).
      { intros l Hl. apply lookup_ge_None. rewrite length_fmap. lia. }
      assert (Hs : ∀ f, spec_label f bars !! S i = None).
      { intros f. apply lookup_ge_None. unfold spec_label.
        rewrite length_imap. lia. }
      unfold spec_RealBullish, spec_RealBearish, spec_LooseBullish,
        spec_LooseBearish.
      rewrite !Hs. split_and!; apply Hn; col_length.
Qed.

(** C7, as stated, fails on the two-row scenario of the specification: at
    bar 0 the four labels of the code are booleans (both loose labels are
    true), where the specification has them undefined. *)
Lemma labels_at_bar_0_are_defined :
  Cols.FAKE_YANG two_bars !! 0%nat = Some true
  ∧ Cols.FAKE_YIN two_bars !! 0%nat = Some true
  ∧ Cols.REAL_YANG two_bars !! 0%nat = Some false
  ∧ Cols.REAL_YIN two_bars !! 0%nat = Some false
  ∧ spec_LooseBullish two_bars !! 0%nat = Some None
  ∧ spec_LooseBearish two_bars !! 0%nat = Some None
  ∧ spec_RealBullish two_bars !! 0%nat = Some None
  ∧ spec_RealBearish two_bars !! 0%nat = Some None
  ∧ (Some <$> Cols.FAKE_YANG two_bars) ≠ spec_LooseBullish two_bars
  ∧ (Some <$> Cols.FAKE_YIN two_bars) ≠ spec_LooseBearish two_bars
  ∧ (Some <$> Cols.REAL_YANG two_bars) ≠ spec_RealBullish two_bars
  ∧ (Some <$> Cols.REAL_YIN two_bars) ≠ spec_RealBearish two_bars.
Proof.
  split_and!; try reflexivity;
    intros E; apply (f_equal (λ l, l !! 0%nat)) in E; vm_compute in E;
    discriminate E.
Qed.

Lemma candle_labels_witness :
  two_bars !! 0%nat
  = Some {| date := 0; open := num 10; high := num 10; low := num 10;
            close := num 10; volume := num 100; amount := num 1000 |}
  ∧ (1 ≤ 1)%nat
  ∧ Cols.FAKE_YANG two_bars !! 0%nat = Some true
  ∧ (Some <$> Cols.FAKE_YANG two_bars) !! 1%nat
    = spec_LooseBullish two_bars !! 1%nat.
Proof.
  assert (H0 : two_bars !! 0%nat
               = Some {| date := 0; open := num 10; high := num 10;
                         low := num 10; close := num 10; volume := num 100;
                         amount := num 1000 |}) by reflexivity.
  assert (H1 : (1 ≤ 1)%nat) by lia.
  destruct (candle_labels two_bars) as [Hfirst Hrest].
  destruct (Hfirst _ H0) as (_ & _ & Hy & _).
  destruct (Hrest 1%nat H1) as (_ & _ & Hl & _).
  split_and!; [exact H0 | exact H1 | exact Hy | exact Hl].
Defined.

(** ** [ewm] on a column of numbers *)
Lemma ewm_step_num alpha w wt c :
  ewm_step alpha (Some w, wt) (Some c)
  = (Some (if Qceqb w c then w
           else (wt * (1 - alpha) * w + alpha * c) / (wt * (1 - alpha) + alpha)),
     1).
Proof. done. Qed.

Lemma ewm_from_num alpha w l :
  ∃ l', ewm_from alpha (Some w, 1) (map Some l) = map Some l'.
Proof.
  revert w. induction l as [|c l IH]; intros w.
  - by exists [].
  - change (map Some (c :: l)) with (Some c :: map Some l).
    cbn [ewm_from]. rewrite ewm_step_num. cbn [fst].
    destruct (IH (if Qceqb w c then w
                  else (1 * (1 - alpha) * w + alpha * c)
                       / (1 * (1 - alpha) + alpha))) as [l' Hl'].
    rewrite Hl'. by eexists (_ :: l').
Qed.

Lemma ewm_mean_num span l :
  ∃ l', ewm_mean span (map Some l) = map Some l'
      ∧ length l' = length l ∧ head l' = head l.
Proof.
  destruct l as [|c l]; [by exists []|].
  simpl. destruct (ewm_from_num (ewm_alpha span) c l) as [l' Hl'].
  exists (c :: l'). rewrite Hl'. split_and!; try done.
  simpl. f_equal. apply (f_equal length) in Hl'.
  rewrite ewm_from_length, !length_map in Hl'. done.
Qed.

Lemma zip_with_fsub_num a b :
  zip_with fsub (map Some a) (map Some b) = map Some (zip_with Qcminus a b).
Proof.
  revert b. induction a as [|x a IH]; intros [|y b]; simpl; try done.
  by rewrite IH.
Qed.

Lemma macd_num bars :
  ∃ ef es dif dea,
    ewm_mean (num 12) (col close bars) = map Some ef
    ∧ ewm_mean (num 26) (col close bars) = map Some es
    ∧ Cols.DIF bars = map Some dif
    ∧ Cols.DEA bars = map Some dea
    ∧ dif = zip_with Qcminus ef es
    ∧ length dif = length bars ∧ length dea = length bars
    ∧ head ef = head (close <$> bars) ∧ head es = head (close <$> bars)
    ∧ head dea = head dif.
Proof.
  assert (Hcol : col close bars = map Some (close <$> bars)).
  { unfold col. change (map Some (close <$> bars))
      with (Some <$> (close <$> bars)). by rewrite <-list_fmap_compose. }
  destruct (ewm_mean_num (num 12) (close <$> bars)) as (ef & Hef & Lef & Hhf).
  destruct (ewm_mean_num (num 26) (close <$> bars)) as (es & Hes & Les & Hhs).
  destruct (ewm_mean_num (num 9) (zip_with Qcminus ef es))
    as (dea & Hdea & Ldea & Hhd).
  rewrite length_fmap in Lef, Les.
  exists ef, es, (zip_with Qcminus ef es), dea.
  unfold Cols.DIF, Cols.DEA, macd_default, calculate_macd. simpl.
  rewrite Hcol, Hef, Hes, zip_with_fsub_num, Hdea.
  split_and!; try done.
  - rewrite length_zip_with. lia.
  - rewrite Ldea, length_zip_with. lia.
Qed.

(** C10.  DIF and DEA hold a number at every bar, and MACD_OK is the
    boolean [0 < DIF] there; the two averages start at the first close, so
    DIF and DEA are 0 at bar 0; the three columns are as long as the
    frame. *)
Theorem macd_defined_everywhere (bars : list Bar) :
  (∀ i, (i < length bars)%nat →
     ∃ x y, Cols.DIF bars !! i = Some (Some x)
          ∧ Cols.DEA bars !! i = Some (Some y)
          ∧ Cols.macd_ok bars !! i = Some (bool_decide (0 < x)))
  ∧ (∀ b, bars !! 0%nat = Some b →
       ewm_mean (num 12) (col close bars) !! 0%nat = Some (Some (close b))
       ∧ ewm_mean (num 26) (col close bars) !! 0%nat = Some (Some (close b))
       ∧ Cols.DIF bars !! 0%nat = Some (Some 0)
       ∧ Cols.DEA bars !! 0%nat = Some (Some 0))
  ∧ length (Cols.DIF bars) = length bars
  ∧ length (Cols.DEA bars) = length bars
  ∧ length (Cols.macd_ok bars) = length bars.
Proof.
  destruct (macd_num bars)
    as (ef & es & dif & dea & Hef & Hes & Hdif & Hdea & Edif & Ldif & Ldea
        & Hhf & Hhs & Hhd).
  split_and!.
  - intros i Hi.
    destruct (lookup_lt_is_Some_2 dif i) as [x Hx]; [lia|].
    destruct (lookup_lt_is_Some_2 dea i) as [y Hy]; [lia|].
    exists x, y. unfold Cols.macd_ok.
    change (map ?f (Cols.DIF bars)) with (f <$> Cols.DIF bars).
    rewrite list_lookup_fmap, Hdif, Hdea.
    change (map Some ?l) with (Some <$> l).
    rewrite !list_lookup_fmap, Hx, Hy. simpl.
    by rewrite Qcltb_decide.
  - intros b Hb. destruct bars as [|b0 bars']; [done|].
    injection Hb as ->. simpl in Hhf, Hhs.
    destruct ef as [|f0 ef]; [done|]. destruct es as [|s0 es]; [done|].
    injection Hhf as ->. injection Hhs as ->.
    rewrite Hef, Hes, Hdif, Hdea. subst dif. simpl in *.
    destruct dea as [|d0 dea]; [done|]. injection Hhd as ->.
    unfold Qcminus. rewrite Qcplus_opp_r. done.
  - by rewrite Hdif, length_map.
  - by rewrite Hdea, length_map.
  - apply macd_ok_length.
Qed.

Lemma macd_defined_everywhere_witness :
  ∃ x y, Cols.DIF two_bars !! 1%nat = Some (Some x)
       ∧ Cols.DEA two_bars !! 1%nat = Some (Some y)
       ∧ 0 < x.
Proof.
  destruct (proj1 (macd_defined_everywhere two_bars) 1%nat) as (x & y & Hx & Hy & _);
    [simpl; lia|].
  exists x, y. split_and!; [done..|].
  vm_compute in Hx. injection Hx as <-. reflexivity.
Defined.

(** * More properties of the code *)

(** ** More on the smoother *)

(** From [Qc] to [Q]: the order is the order of the fractions, and the
    operations are those of [Q] up to reduction. *)
Ltac qc_to_q :=
  unfold Qcle, Qclt, Qcdiv, Qcminus, Qcplus, Qcmult, Qcopp, Qcinv in *;
  cbn [this Q2Qc] in *;
  repeat rewrite Qred_correct in *.

Lemma sma_num_bounds (lo hi a p n m : Qc) :
  lo ≤ a ≤ hi → lo ≤ p ≤ hi → 0 < m → m ≤ n →
  lo ≤ (m * a + (n - m) * p) / n ≤ hi.
Proof.
  intros [Ha1 Ha2] [Hp1 Hp2] Hm Hn.
  assert (Hn0 : 0 < n) by (eapply Qclt_le_trans; eauto).
  qc_to_q.
  change (?x * / this n)%Q with (x / this n)%Q.
  split.
  - apply Qle_shift_div_l; [done|]. nra.
  - apply Qle_shift_div_r; [done|]. nra.
Qed.


Lemma sma_next_in lo hi n m prev x :
  0 < m → m ≤ n → cell_in lo hi prev → cell_in lo hi x →
  cell_in lo hi (sma_next n m prev x).
Proof.
  intros Hm Hn Hp Hx. destruct prev as [p|]; [|done].
  destruct x as [a|]; [|done]. rewrite sma_next_num. by apply sma_num_bounds.
Qed.

Lemma sma_from_in lo hi n m prev xs :
  0 < m → m ≤ n → cell_in lo hi prev → Forall (cell_in lo hi) xs →
  Forall (cell_in lo hi) (sma_from n m prev xs).
Proof.
  intros Hm Hn Hp Hxs. revert prev Hp.
  induction Hxs as [|x xs Hx _ IH]; intros prev Hp; simpl; [done|].
  assert (cell_in lo hi (sma_next n m prev x)) by by apply sma_next_in.
  constructor; [done|]. by apply IH.
Qed.

Lemma sma_cells_in (X R : list float) (n m lo hi : Qc) :
  0 < m → m ≤ n → Forall (cell_in lo hi) X → sma X n m = Some R →
  Forall (cell_in lo hi) R.
Proof.
  intros Hm Hn HX. destruct X as [|x0 xs]; [done|].
  rewrite sma_unfold. intros [= <-].
  apply Forall_cons in HX as [H0 Hxs].
  constructor; [done|]. by apply sma_from_in.
Qed.




Lemma sma_from_nan n m k xs :
  sma_from n m NaN (replicate k NaN ++ xs)
  = replicate k NaN ++ sma_from n m NaN xs.
Proof.
  unfold NaN. induction k as [|k IH]; [done|].
  cbn [replicate app sma_from]. unfold sma_next at 1 2. cbn [isna].
  by rewrite IH.
Qed.

Lemma sma_from_nan_cons n m x xs :
  sma_from n m NaN (x :: xs) = x :: sma_from n m x xs.
Proof. done. Qed.

Lemma sma_skips_nan (k : nat) (Y : list float) (n m : Qc) :
  Y ≠ [] →
  sma (replicate k NaN ++ Y) n m = (λ R, replicate k NaN ++ R) <$> sma Y n m.
Proof.
  intros HY. destruct Y as [|y ys]; [done|]. rewrite sma_unfold.
  destruct k as [|k]; [cbn [replicate app]; by rewrite sma_unfold|].
  change (replicate (S k) NaN ++ y :: ys)
    with (NaN :: (replicate k NaN ++ y :: ys)).
  rewrite sma_unfold, sma_from_nan, sma_from_nan_cons. done.
Qed.

(** X2.  Leading NaN cells are passed through, and the smoothing of what
    follows starts afresh at the first cell after them. *)
Theorem sma_leading_nan (k : nat) (Y : list float) (n m : Qc) :
  Y ≠ [] →
  sma (replicate k NaN ++ Y) n m = (λ R, replicate k NaN ++ R) <$> sma Y n m.
Proof.
  intros HY. destruct Y as [|y ys]; [done|].
  induction k as [|k IH].
  - cbn [replicate app]. rewrite sma_unfold. done.
  - change (replicate (S k) NaN ++ y :: ys)
      with (NaN :: (replicate k NaN ++ y :: ys)).
    rewrite !sma_unfold, sma_from_nan, sma_from_nan_cons. done.
Qed.

(** On numbers the smoother yields numbers. *)
Lemma sma_from_num n m p l :
  ∃ l', sma_from n m (Some p) (map Some l) = map Some l'.
Proof.
  revert p. induction l as [|a l IH]; intros p; [by exists []|].
  change (map Some (a :: l)) with (Some a :: map Some l).
  cbn [sma_from]. rewrite sma_next_num.
  destruct (IH ((m * a + (n - m) * p) / n)) as [l' Hl'].
  exists ((m * a + (n - m) * p) / n :: l'). by rewrite Hl'.
Qed.

Lemma sma_num n m l :
  l ≠ [] → ∃ l', sma (map Some l) n m = Some (map Some l').
Proof.
  destruct l as [|a l]; [done|]. intros _.
  change (map Some (a :: l)) with (Some a :: map Some l). rewrite sma_unfold.
  destruct (sma_from_num n m a l) as [l' Hl']. exists (a :: l').
  simpl. by rewrite Hl'.
Qed.

(** ** The oscillator: warm-up and range *)

Lemma last_bars_last w i bars b :
  bars !! i = Some b → (0 < w ≤ S i)%nat → b ∈ last_bars w i bars.
Proof.
  intros Hb Hw. apply list_elem_of_lookup. exists (w - 1)%nat.
  unfold last_bars. rewrite lookup_take_lt by lia. rewrite lookup_drop.
  replace (S i - w + (w - 1))%nat with i by lia. done.
Qed.

Lemma rsv_num_range (c lo hi : Qc) :
  lo ≤ c ≤ hi → hi - lo ≠ 0 → 0 ≤ (c - lo) / (hi - lo) * num 100 ≤ num 100.
Proof.
  intros [H1 H2] Hne.
  assert (Hd : 0 < hi - lo).
  { assert (lo ≤ hi) by (eapply Qcle_trans; eauto).
    destruct (Qcle_lt_or_eq _ _ H) as [Hlt| ->].
    - clear -Hlt. qc_to_q. lra.
    - exfalso. apply Hne. ring. }
  clear Hne. qc_to_q.
  change (?x * / ?y)%Q with (x / y)%Q.
  assert (Hq : (0 <= (this c + - this lo) / (this hi + - this lo) <= 1)%Q).
  { split.
    - apply Qle_shift_div_l; [done|]. lra.
    - apply Qle_shift_div_r; [done|]. lra. }
  unfold num, Qc_of_Z. cbn [this]. unfold inject_Z. lra.
Qed.

Lemma rsv_cell_range (c lo hi : Qc) :
  lo ≤ c ≤ hi →
  cell_in 0 (num 100) (rsv_cell (Some c) (Some lo) (Some (hi - lo))).
Proof.
  intros Hc. unfold rsv_cell, fne. cbn [feq cmp2].
  destruct (Qceqb (hi - lo) 0) eqn:E; cbn [negb].
  - simpl. split; discriminate.
  - simpl. apply rsv_num_range; [done|]. intros Hz.
    apply Qceqb_eq in Hz. congruence.
Qed.

Lemma rsv_in_range (bars : list Bar) :
  Forall well_formed bars → Forall (cell_in 0 (num 100)) (rsv bars).
Proof.
  intros Hwf. apply Forall_lookup. intros i x Hx.
  destruct (lookup_lt_is_Some_2 bars i) as [b Hb].
  { apply lookup_lt_Some in Hx. by rewrite rsv_length in Hx. }
  rewrite (rsv_lookup _ _ _ Hb) in Hx. injection Hx as <-.
  destruct (decide (9 ≤ S i)%nat) as [Hw|]; [|done]. cbn zeta.
  assert (Hin : b ∈ last_bars 9 i bars) by (apply last_bars_last; [done|lia]).
  assert (Hne : ∀ f : Bar → Qc, f <$> last_bars 9 i bars ≠ []).
  { intros f E. apply (f_equal length) in E. rewrite length_fmap in E.
    destruct (last_bars 9 i bars); [by apply elem_of_nil in Hin|done]. }
  destruct (agg_max_is_max _ (Hne high)) as [_ Hmax].
  destruct (agg_min_is_min _ (Hne low)) as [_ Hmin].
  pose proof (Hmax (high b) (list_elem_of_fmap_2 high _ _ Hin)) as Hh.
  pose proof (Hmin (low b) (list_elem_of_fmap_2 low _ _ Hin)) as Hl.
  destruct (proj1 (Forall_lookup _ _) Hwf i b Hb) as [Hlc Hch].
  apply rsv_cell_range. split; eapply Qcle_trans; eauto.
Qed.

Lemma all_Some_map (xs : list float) :
  Forall is_Some xs → ∃ l, xs = map Some l.
Proof.
  induction 1 as [|x xs [a ->] _ [l ->]]; [by exists []|]. by exists (a :: l).
Qed.

(** [rsv] is NaN on the first 8 rows and a number on every later row. *)
Lemma rsv_shape bars :
  ∃ l, rsv bars = replicate (8 `min` length bars) NaN ++ map Some l
     ∧ length l = (length bars - 8)%nat.
Proof.
  assert (Ht : take 8 (rsv bars) = replicate (8 `min` length bars) NaN).
  { apply list_eq. intros i.
    destruct (decide (i < 8 `min` length bars)%nat) as [Hi|Hi].
    - rewrite lookup_take_lt by lia.
      destruct (lookup_lt_is_Some_2 bars i) as [b Hb]; [lia|].
      rewrite (rsv_lookup _ _ _ Hb), decide_False by lia.
      symmetry. apply lookup_replicate_2. lia.
    - assert (E : replicate (8 `min` length bars) NaN !! i = None)
        by (apply lookup_replicate_None; lia).
      rewrite E. apply lookup_ge_None. rewrite length_take, rsv_length. lia. }
  assert (Hd : Forall is_Some (drop 8 (rsv bars))).
  { apply Forall_lookup. intros i x Hx. rewrite lookup_drop in Hx.
    destruct (lookup_lt_is_Some_2 bars (8 + i)) as [b Hb].
    { apply lookup_lt_Some in Hx. by rewrite rsv_length in Hx. }
    rewrite (rsv_lookup _ _ _ Hb), decide_True in Hx by lia.
    injection Hx as <-. cbn zeta. unfold rsv_cell.
    destruct (fne _ _); by eexists. }
  destruct (all_Some_map _ Hd) as [l Hl]. exists l. split.
  - by rewrite <-Ht, <-Hl, take_drop.
  - apply (f_equal length) in Hl.
    rewrite length_drop, rsv_length, length_map in Hl. lia.
Qed.

(** The smoother keeps that shape. *)
Lemma sma_shape n m k l :
  (0 < k + length l)%nat →
  ∃ l', sma (replicate k NaN ++ map Some l) n m
        = Some (replicate k NaN ++ map Some l')
      ∧ length l' = length l.
Proof.
  intros Hpos. destruct l as [|a l].
  - exists []. split; [|done]. cbn [map]. rewrite app_nil_r.
    destruct k as [|k]; [simpl in Hpos; lia|].
    change (replicate (S k) NaN) with (NaN :: replicate k NaN).
    rewrite sma_unfold. f_equal. f_equal.
    rewrite <-(app_nil_r (replicate k NaN)) at 1.
    rewrite sma_from_nan. cbn [sma_from]. by rewrite app_nil_r.
  - destruct (sma_num n m (a :: l)) as [l' Hl']; [done|].
    exists l'. rewrite sma_skips_nan by done. rewrite Hl'.
    split; [done|]. apply sma_length in Hl'. by rewrite !length_map in Hl'.
Qed.

Lemma j_cell_shape k a b :
  zip_with j_cell (replicate k NaN ++ map Some a) (replicate k NaN ++ map Some b)
  = replicate k NaN ++ map Some (zip_with (λ x y, num 3 * x - num 2 * y) a b).
Proof.
  induction k as [|k IH]; [|cbn [replicate app zip_with]; by rewrite IH].
  cbn [replicate app]. revert b.
  induction a as [|x a IHa]; intros [|y b]; try done.
  cbn [map zip_with]. by rewrite IHa.
Qed.

Lemma kdj_shape (bars : list Bar) (k d j : list float) :
  calculate_kdj bars = Some (k, d, j) →
  ∃ lk ld,
    k = replicate (8 `min` length bars) NaN ++ map Some lk
    ∧ d = replicate (8 `min` length bars) NaN ++ map Some ld
    ∧ j = replicate (8 `min` length bars) NaN
          ++ map Some (zip_with (λ x y, num 3 * x - num 2 * y) lk ld)
    ∧ length lk = (length bars - 8)%nat
    ∧ length ld = (length bars - 8)%nat.
Proof.
  intros Hkdj. unfold calculate_kdj in Hkdj.
  destruct (rsv_shape bars) as (l & Hrsv & Hl).
  destruct (decide (length bars = 0%nat)) as [H0|H0].
  { destruct bars; [|done]. by vm_compute in Hkdj. }
  set (w := (8 `min` length bars)%nat) in *.
  destruct (sma_shape (num 3) 1 w l) as (lk & Hk & Hlk); [lia|].
  destruct (sma_shape (num 3) 1 w lk) as (ld & Hd & Hld); [lia|].
  rewrite Hrsv, Hk, Hd in Hkdj. injection Hkdj as <- <- <-.
  exists lk, ld. rewrite j_cell_shape. split_and!; try done; lia.
Qed.

(** X4.  K, D and J are NaN on the first 8 rows and numbers on every later
    row, with [J = 3K - 2D] there. *)
Theorem kdj_warm_up (bars : list Bar) (k d j : list float) (i : nat) :
  calculate_kdj bars = Some (k, d, j) → (i < length bars)%nat →
  ((i < 8)%nat →
     k !! i = Some NaN ∧ d !! i = Some NaN ∧ j !! i = Some NaN)
  ∧ ((8 ≤ i)%nat →
     ∃ x y, k !! i = Some (Some x) ∧ d !! i = Some (Some y)
          ∧ j !! i = Some (Some (num 3 * x - num 2 * y))).
Proof.
  intros Hkdj Hi.
  destruct (kdj_shape _ _ _ _ Hkdj) as (lk & ld & -> & -> & -> & Hlk & Hld).
  set (w := (8 `min` length bars)%nat) in *.
  split; intros Hi8.
  - rewrite !lookup_app_l by (rewrite length_replicate; lia).
    rewrite !lookup_replicate_2 by lia. done.
  - assert (Hw : w = 8%nat) by lia.
    destruct (lookup_lt_is_Some_2 lk (i - 8)) as [x Hx]; [lia|].
    destruct (lookup_lt_is_Some_2 ld (i - 8)) as [y Hy]; [lia|].
    exists x, y.
    rewrite !lookup_app_r by (rewrite length_replicate; lia).
    rewrite !length_replicate, Hw.
    change (map Some ?l) with (Some <$> l).
    rewrite !list_lookup_fmap, lookup_zip_with, Hx, Hy. done.
Qed.

Lemma j_num_range (x y : Qc) :
  0 ≤ x ≤ num 100 → 0 ≤ y ≤ num 100 →
  - num 200 ≤ num 3 * x - num 2 * y ≤ num 300.
Proof.
  intros [H1 H2] [H3 H4]. qc_to_q.
  unfold num, Qc_of_Z in *. cbn [this] in *. unfold inject_Z in *. lra.
Qed.

(** X5.  When every bar has [low <= close <= high], RSV, K and D stay
    within 0 and 100, and J within -200 and 300. *)
Theorem kdj_range (bars : list Bar) (k d j : list float) :
  Forall well_formed bars → calculate_kdj bars = Some (k, d, j) →
  Forall (cell_in 0 (num 100)) (rsv bars)
  ∧ Forall (cell_in 0 (num 100)) k
  ∧ Forall (cell_in 0 (num 100)) d
  ∧ Forall (cell_in (- num 200) (num 300)) j.
Proof.
  intros Hwf Hkdj. unfold calculate_kdj in Hkdj.
  destruct (sma (rsv bars) (num 3) 1) as [k'|] eqn:Hk; [|done].
  destruct (sma k' (num 3) 1) as [d'|] eqn:Hd; [|done].
  injection Hkdj as <- <- <-.
  assert (H1 : (0 : Qc) < 1) by reflexivity.
  assert (H3 : (1 : Qc) ≤ num 3) by discriminate.
  pose proof (rsv_in_range bars Hwf) as Hr.
  assert (Hkr : Forall (cell_in 0 (num 100)) k').
  { by eapply (sma_cells_in (rsv bars)). }
  assert (Hdr : Forall (cell_in 0 (num 100)) d').
  { by eapply (sma_cells_in k'). }
  split_and!; [done..|].
  apply Forall_lookup. intros i x Hx.
  apply lookup_zip_with_Some in Hx as (a & b & -> & Ha & Hb).
  pose proof (proj1 (Forall_lookup _ _) Hkr i a Ha) as Hka.
  pose proof (proj1 (Forall_lookup _ _) Hdr i b Hb) as Hdb.
  destruct a as [a|], b as [b|]; try done.
  by apply j_num_range.
Qed.

(** ** Candle labels: how the four relate *)
Lemma Qcltb_asym a b : Qcltb a b = true → Qcltb b a = false.
Proof.
  intros H%Qcltb_lt. destruct (Qcltb b a) eqn:E; [|done].
  apply Qcltb_lt in E. destruct (Qclt_not_le _ _ H). by apply Qclt_le_weak.
Qed.

Lemma REF_C_1_length bars : length (Cols.REF_C_1 bars) = length bars.
Proof. col_length. Qed.

(** X6.  At every bar: a candle is never both real-bullish and
    real-bearish; a real label implies the loose label of the same side; and
    at least one of the two loose labels holds. *)
Theorem candle_label_relations (bars : list Bar) (i : nat) :
  (i < length bars)%nat →
  ∃ real_yang real_yin fake_yang fake_yin,
    Cols.REAL_YANG bars !! i = Some real_yang
    ∧ Cols.REAL_YIN bars !! i = Some real_yin
    ∧ Cols.FAKE_YANG bars !! i = Some fake_yang
    ∧ Cols.FAKE_YIN bars !! i = Some fake_yin
    ∧ real_yang && real_yin = false
    ∧ implb real_yang fake_yang = true
    ∧ implb real_yin fake_yin = true
    ∧ fake_yang || fake_yin = true.
Proof.
  intros Hi.
  destruct (lookup_lt_is_Some_2 bars i Hi) as [b Hb].
  destruct (lookup_lt_is_Some_2 (Cols.REF_C_1 bars) i) as [r Hr].
  { by rewrite REF_C_1_length. }
  destruct (labels_lookup bars i b r Hb Hr) as (H1 & H2 & H3 & H4).
  eexists _, _, _, _. split_and!; [exact H1 | exact H2 | exact H3 | exact H4 |..].
  - destruct (Qcltb (open b) (close b)) eqn:E; [|done].
    rewrite (Qcltb_asym _ _ E). cbn [andb]. by destruct (negb _).
  - by destruct (Qcltb (open b) (close b)), (negb (flt (Some (close b)) r)).
  - by destruct (Qcltb (close b) (open b)), (negb (fgt (Some (close b)) r)).
  - destruct r as [p|]; [|done]. unfold fgt. cbn [flt cmp2].
    destruct (Qcltb (close b) p) eqn:E; [|done].
    by rewrite (Qcltb_asym _ _ E).
Qed.

(** ** A close that never moves *)
Lemma ewm_from_const alpha c wt n :
  ewm_from alpha (Some c, wt) (replicate n (Some c)) = replicate n (Some c).
Proof.
  revert wt. induction n as [|n IH]; intros wt; [done|].
  cbn [replicate ewm_from]. rewrite ewm_step_num.
  assert (E : Qceqb c c = true) by by apply Qceqb_eq.
  rewrite E. cbn [fst]. by rewrite IH.
Qed.

Lemma ewm_mean_const span c n :
  ewm_mean span (replicate n (Some c)) = replicate n (Some c).
Proof. destruct n as [|n]; [done|]. simpl. by rewrite ewm_from_const. Qed.

Lemma DIF_const (c : Qc) bars :
  Forall (λ b, close b = c) bars →
  Cols.DIF bars = replicate (length bars) (Some 0).
Proof.
  intros Hc. unfold Cols.DIF, macd_default, calculate_macd. cbn [fst].
  rewrite (col_const close c bars Hc), !ewm_mean_const.
  generalize (length bars). intros n.
  induction n as [|n IH]; [done|]. cbn [replicate zip_with]. rewrite IH.
  f_equal. unfold fsub, lift2, Qcminus. f_equal. apply Qcplus_opp_r.
Qed.

Lemma sort_values_Forall (P : Bar → Prop) bars :
  Forall P bars → Forall P (sort_values bars).
Proof. intros H. unfold sort_values. by rewrite merge_sort_Permutation. Qed.

Lemma analyze_stock_Some_length df r :
  analyze_stock df = Some r → (60 ≤ length (rows df))%nat.
Proof.
  unfold analyze_stock. destruct (decide _) as [|Hn]; [done|]. intros _. lia.
Qed.

Lemma select_one_Some spot_dict code df r :
  select_one spot_dict code df = Some r →
  ∃ r0, analyze_stock df = Some r0
      ∧ r = check_market_value spot_dict code (set_stock_code code r0).
Proof.
  unfold select_one. destruct (analyze_stock df) as [r0|]; [|done].
  intros [= <-]. by exists r0.
Qed.

(** X8.  A stock whose close is the same on every row is never selected:
    DIF is 0 at the last bar, so [DIF > 0] fails. *)
Theorem constant_close_never_selected (df : DataFrame) (c : Qc)
    (spot_dict : gmap string Qc) (code : string) (r : result) :
  Forall (λ b, close b = c) (rows df) →
  select_one spot_dict code df = Some r →
  selected r = false
  ∧ indicators r !! "MACD_DIF" = Some (VNum (Some 0))
  ∧ indicators r !! "DIF>0" = Some (VBool false).
Proof.
  intros Hc Hsel.
  apply select_one_Some in Hsel as (r0 & Hr0 & ->).
  pose proof (analyze_stock_Some_length _ _ Hr0) as Hlen.
  destruct (analyze_stock_ge60 df Hlen)
    as (k & d & latest & vJ & vDIF & trig & lq & max28 & yy & Hr).
  cbn zeta in Hr. destruct Hr as (_&_&_&_&_&HvDIF&_&_&_&_&_&_&Hr).
  rewrite (DIF_const c) in HvDIF by by apply sort_values_Forall.
  rewrite last_replicate in HvDIF
    by (rewrite sort_values_length; lia).
  injection HvDIF as <-.
  rewrite Hr in Hr0. injection Hr0 as <-.
  rewrite check_market_value_selected. unfold set_stock_code.
  cbn [selected]. split_and!.
  - change (Qcltb 0 0) with false. by rewrite !andb_false_r.
  - unfold check_market_value.
    destruct (spot_dict !! code); cbn [indicators];
      rewrite !lookup_insert_ne by done; unfold indicators_of;
      by rewrite lookup_insert_ne, lookup_insert_eq by done.
  - unfold check_market_value.
    destruct (spot_dict !! code); cbn [indicators];
      rewrite !lookup_insert_ne by done; unfold indicators_of;
      by rewrite lookup_insert_eq.
Qed.

(** ** The entries of the report *)
Lemma indicators_of_entries vJ vDIF xg trig lq max28 yy macd :
  let m := indicators_of vJ vDIF xg trig lq max28 yy macd in
  m !! "J" = Some (VNum vJ)
  ∧ m !! "J_OK" = Some (VBool (if isna vJ then false else xg))
  ∧ m !! "TRIGGER" = Some (VBool trig)
  ∧ m !! "LQ" = Some (VBool lq)
  ∧ m !! "MAX28_OK" = Some (VBool max28)
  ∧ m !! "YANGYIN_OK" = Some (VBool yy)
  ∧ m !! "MACD_DIF" = Some (VNum vDIF)
  ∧ m !! "DIF>0" = Some (VBool (if isna vDIF then false else macd))
  ∧ m !! "MV" = None ∧ m !! "MVOK" = None.
Proof.
  cbn zeta. unfold indicators_of.
  split_and!;
    repeat (first [ rewrite lookup_insert_eq; reflexivity
                  | rewrite lookup_insert_ne by done ]);
    by rewrite ?lookup_empty.
Qed.

Lemma check_market_value_entries spot_dict code r :
  let r' := check_market_value spot_dict code r in
  (∀ key, key ≠ "MV" → key ≠ "MVOK" →
     indicators r' !! key = indicators r !! key)
  ∧ indicators r' !! "MVOK" = Some (VBool (MarketCapFloor spot_dict code))
  ∧ indicators r' !! "MV"
    = Some (match spot_dict !! code with
            | Some mv => VNum (Some mv)
            | None => VNone
            end)
  ∧ selected r' = MarketCapFloor spot_dict code && selected r
  ∧ r_date r' = r_date r ∧ raw_data r' = raw_data r
  ∧ stock_code r' = stock_code r.
Proof.
  cbn zeta. split_and!; try apply check_market_value_selected;
    unfold check_market_value, MarketCapFloor;
    destruct (spot_dict !! code) as [mv|]; cbn [indicators r_date raw_data stock_code];
    try done.
  - intros key H1 H2. by rewrite !lookup_insert_ne by done.
  - intros key H1 H2. by rewrite !lookup_insert_ne by done.
  - by rewrite lookup_insert_eq, Qcleb_decide.
  - by rewrite lookup_insert_eq.
  - by rewrite lookup_insert_ne, lookup_insert_eq by done.
  - by rewrite lookup_insert_ne, lookup_insert_eq by done.
Qed.

(** What [analyze_stock] returns, with the last cells of [J] and [DIF]
    known to be numbers. *)
Lemma analyze_stock_numbers (df : DataFrame) (r : result) :
  analyze_stock df = Some r →
  ∃ latest x y trig lq max28 yy,
    last (sort_values (rows df)) = Some latest
    ∧ r_date r = date latest ∧ raw_data r = latest ∧ stock_code r = None
    ∧ selected r
      = Qcleb x (num 13) && trig && lq && true && max28 && yy && Qcltb 0 y
    ∧ indicators r
      = indicators_of (Some x) (Some y) (selected r) trig lq max28 yy
          (Qcltb 0 y).
Proof.
  intros Hr. pose proof (analyze_stock_Some_length _ _ Hr) as Hlen.
  destruct (analyze_stock_ge60 df Hlen)
    as (k & d & latest & vJ & vDIF & trig & lq & max28 & yy & H).
  cbn zeta in H. destruct H as (Hkdj&Hlast&_&_&HvJ&HvDIF&_&_&_&_&_&_&Hr').
  set (bars := sort_values (rows df)) in *.
  assert (Hb : length bars = length (rows df)) by apply sort_values_length.
  destruct (kdj_shape _ _ _ _ Hkdj) as (lk & ld & _ & _ & Hj & Hlk & Hld).
  assert (∃ x, vJ = Some x) as [x ->].
  { rewrite Hj in HvJ. rewrite last_lookup in HvJ.
    rewrite length_app, length_replicate, length_map, length_zip_with in HvJ.
    rewrite lookup_app_r in HvJ by (rewrite length_replicate; lia).
    change (map Some ?l) with (Some <$> l) in HvJ.
    rewrite list_lookup_fmap in HvJ.
    destruct (_ !! _) as [x|]; [|done]. injection HvJ as <-. by exists x. }
  destruct (macd_num bars) as (ef & es & dif & dea & _ & _ & Hdif & _).
  assert (∃ y, vDIF = Some y) as [y ->].
  { rewrite Hdif, last_lookup in HvDIF.
    change (map Some ?l) with (Some <$> l) in HvDIF.
    rewrite list_lookup_fmap in HvDIF.
    destruct (_ !! _) as [y|]; [|done]. injection HvDIF as <-. by exists y. }
  exists latest, x, y, trig, lq, max28, yy.
  rewrite Hr in Hr'. injection Hr' as ->. done.
Qed.

(** X9.  In every result of [analyze_stock] the entries [J] and [MACD_DIF]
    are numbers, so neither [pd.isna] guard of the report fires: ['J_OK']
    is the selection flag and ['DIF>0'] is [0 < DIF]; the report has exactly
    the eight keys of the source. *)
Theorem report_guards_never_fire (df : DataFrame) (r : result) :
  analyze_stock df = Some r →
  ∃ x y,
    indicators r !! "J" = Some (VNum (Some x))
    ∧ indicators r !! "MACD_DIF" = Some (VNum (Some y))
    ∧ indicators r !! "J_OK" = Some (VBool (selected r))
    ∧ indicators r !! "DIF>0" = Some (VBool (bool_decide (0 < y)))
    ∧ dom (indicators r)
      = list_to_set ["J"; "J_OK"; "TRIGGER"; "LQ"; "MAX28_OK"; "YANGYIN_OK";
                     "MACD_DIF"; "DIF>0"].
Proof.
  intros Hr.
  destruct (analyze_stock_numbers df r Hr)
    as (latest & x & y & trig & lq & max28 & yy & _ & _ & _ & _ & _ & Hind).
  exists x, y. rewrite Hind.
  destruct (indicators_of_entries (Some x) (Some y) (selected r)
              trig lq max28 yy (Qcltb 0 y))
    as (H1&H2&_&_&_&_&H7&H8&_).
  split_and!; [exact H1 | exact H7 | exact H2 | by rewrite H8, Qcltb_decide |].
  unfold indicators_of. rewrite !dom_insert_L, dom_empty_L.
  cbn [list_to_set]. set_solver.
Qed.

(** X13.  A selected instrument comes from a frame of 60 rows or more,
    carries the file's code, and its report shows [J <= 13], [DIF > 0], every
    flag true, and a market value of at least 30 when the table has one. *)
Theorem selected_implies_conditions (spot_dict : gmap string Qc)
    (code : string) (df : DataFrame) (r : result) :
  select_one spot_dict code df = Some r → selected r = true →
  ∃ x y,
    indicators r !! "J" = Some (VNum (Some x)) ∧ x ≤ num 13
    ∧ indicators r !! "MACD_DIF" = Some (VNum (Some y)) ∧ 0 < y
    ∧ indicators r !! "J_OK" = Some (VBool true)
    ∧ indicators r !! "TRIGGER" = Some (VBool true)
    ∧ indicators r !! "LQ" = Some (VBool true)
    ∧ indicators r !! "MAX28_OK" = Some (VBool true)
    ∧ indicators r !! "YANGYIN_OK" = Some (VBool true)
    ∧ indicators r !! "DIF>0" = Some (VBool true)
    ∧ indicators r !! "MVOK" = Some (VBool true)
    ∧ (∀ mv, spot_dict !! code = Some mv → num 30 ≤ mv)
    ∧ stock_code r = Some code
    ∧ (60 ≤ length (rows df))%nat.
Proof.
  intros Hsel Hs.
  apply select_one_Some in Hsel as (r0 & Hr0 & ->).
  pose proof (analyze_stock_Some_length _ _ Hr0) as Hlen.
  destruct (analyze_stock_numbers df r0 Hr0)
    as (latest & x & y & trig & lq & max28 & yy & _ & _ & _ & _ & Hxg & Hind).
  destruct (check_market_value_entries spot_dict code (set_stock_code code r0))
    as (Hkeys & Hmvok & _ & Hsel' & _ & _ & Hcode).
  cbn zeta in *.
  change (indicators (set_stock_code code r0)) with (indicators r0) in Hkeys.
  change (selected (set_stock_code code r0)) with (selected r0) in Hsel'.
  change (stock_code (set_stock_code code r0)) with (Some code) in Hcode.
  rewrite Hsel' in Hs. apply andb_true_iff in Hs as [Hmcf Hs0].
  destruct (indicators_of_entries (Some x) (Some y) (selected r0)
              trig lq max28 yy (Qcltb 0 y))
    as (E1&E2&E3&E4&E5&E6&E7&E8&_).
  cbn zeta in *. rewrite <-Hind in E1, E2, E3, E4, E5, E6, E7, E8.
  clear Hind. cbn [isna] in E2, E8.
  rewrite Hs0 in Hxg, E2. symmetry in Hxg.
  repeat (apply andb_true_iff in Hxg as [Hxg ?]).
  subst trig lq max28 yy.
  assert (Hy : Qcltb 0 y = true) by done. rewrite Hy in E8.
  exists x, y.
  split_and!; rewrite ?Hkeys by done; try done.
  - by apply Qcleb_le.
  - by apply Qcltb_lt.
  - by rewrite Hmvok, Hmcf.
  - intros mv Hmv. unfold MarketCapFloor in Hmcf. rewrite Hmv in Hmcf.
    by apply bool_decide_eq_true in Hmcf.
Qed.

(** ** Sorting by date *)
Lemma date_le_trans : Transitive date_le.
Proof. intros a b c. unfold date_le. lia. Qed.

Lemma date_le_total : Total date_le.
Proof. intros a b. unfold date_le. lia. Qed.

Lemma sort_values_sorted bars : StronglySorted date_le (sort_values bars).
Proof.
  apply StronglySorted_merge_sort; [apply date_le_trans | apply date_le_total].
Qed.

Lemma sort_values_perm bars : sort_values bars ≡ₚ bars.
Proof. apply merge_sort_Permutation. Qed.

Lemma sorted_last_max (l : list Bar) (x : Bar) :
  StronglySorted date_le l → last l = Some x →
  ∀ y, y ∈ l → (date y ≤ date x)%Z.
Proof.
  induction 1 as [|a l Hs IH Ha]; [done|].
  intros Hlast y Hy. destruct l as [|b l].
  - injection Hlast as <-. apply list_elem_of_singleton in Hy as ->. lia.
  - assert (Hl : last (b :: l) = Some x) by done.
    apply elem_of_cons in Hy as [->|Hy]; [|by apply IH].
    apply (proj1 (Forall_forall _ _) Ha). by apply last_Some_elem_of.
Qed.

(** Two date-sorted lists with the same bars, no date twice, are equal. *)
Lemma sorted_perm_eq (l1 l2 : list Bar) :
  StronglySorted date_le l1 → StronglySorted date_le l2 →
  l1 ≡ₚ l2 → NoDup (date <$> l1) → l1 = l2.
Proof.
  intros H1. revert l2. induction H1 as [|a l1 Hs1 IH Ha]; intros l2 H2 Hp Hnd.
  - by apply Permutation_nil_l in Hp.
  - destruct H2 as [|b l2 Hs2 Hb].
    { by apply Permutation_nil_r in Hp. }
    assert (Hab : a = b).
    { assert (Hina : a ∈ b :: l2) by (rewrite <-Hp; left).
      assert (Hinb : b ∈ a :: l1) by (rewrite Hp; left).
      apply elem_of_cons in Hina as [->|Hina]; [done|].
      apply elem_of_cons in Hinb as [->|Hinb]; [done|].
      pose proof (proj1 (Forall_forall _ _) Ha b Hinb) as Hle1.
      pose proof (proj1 (Forall_forall _ _) Hb a Hina) as Hle2.
      unfold date_le in Hle1, Hle2.
      assert (Hd : date a = date b) by lia.
      apply NoDup_cons in Hnd as [Hnotin _]. exfalso. apply Hnotin.
      rewrite Hd. by apply list_elem_of_fmap_2. }
    subst b. f_equal. apply IH; [done| |].
    + by apply (inj (cons a)).
    + by apply NoDup_cons in Hnd as [_ ?].
Qed.

Lemma sort_values_perm_eq (l1 l2 : list Bar) :
  l1 ≡ₚ l2 → NoDup (date <$> l1) → sort_values l1 = sort_values l2.
Proof.
  intros Hp Hnd. apply sorted_perm_eq; try apply sort_values_sorted.
  - by rewrite !sort_values_perm.
  - by rewrite sort_values_perm.
Qed.

(** X10.  The reported row is a row of the frame, the reported date is its
    date, and no row of the frame has a later date. *)
Theorem latest_bar_is_reported (df : DataFrame) (r : result) :
  analyze_stock df = Some r →
  raw_data r ∈ rows df
  ∧ r_date r = date (raw_data r)
  ∧ ∀ b, b ∈ rows df → (date b ≤ r_date r)%Z.
Proof.
  intros Hr.
  destruct (analyze_stock_numbers df r Hr)
    as (latest & x & y & trig & lq & max28 & yy & Hlast & Hd & Hraw & _).
  rewrite Hd, Hraw. split_and!; [|done|].
  - rewrite <-(sort_values_perm (rows df)). by apply last_Some_elem_of.
  - intros b Hb. apply (sorted_last_max (sort_values (rows df)));
      [apply sort_values_sorted | done |].
    by rewrite sort_values_perm.
Qed.

(** X11.  Two frames with the same rows in any order, no date twice, are
    analysed alike. *)
Theorem row_order_is_irrelevant (df1 df2 : DataFrame) :
  rows df1 ≡ₚ rows df2 → NoDup (date <$> rows df1) →
  has_amount df1 = has_amount df2 →
  analyze_stock df1 = analyze_stock df2.
Proof.
  intros Hp Hnd Ha. unfold analyze_stock.
  rewrite (sort_values_perm_eq _ _ Hp Hnd), Ha.
  by rewrite (Permutation_length Hp).
Qed.

(** X12.  Sorting leaves a frame with strictly increasing dates as it
    is. *)
Theorem sorted_frame_is_kept (bars : list Bar) :
  StronglySorted (λ a b, (date a < date b)%Z) bars →
  sort_values bars = bars.
Proof.
  intros Hs. symmetry. apply sorted_perm_eq.
  - induction Hs as [|a l Hs IH Ha]; constructor; [done|].
    eapply Forall_impl; [done|]. intros b. unfold date_le. simpl. lia.
  - apply sort_values_sorted.
  - by rewrite sort_values_perm.
  - induction Hs as [|a l Hs IH Ha]; [constructor|].
    cbn [fmap list_fmap]. apply NoDup_cons. split; [|done].
    intros Hin. apply list_elem_of_fmap in Hin as (b & Hd & Hb).
    pose proof (proj1 (Forall_forall _ _) Ha b Hb) as Hlt.
    simpl in Hlt. lia.
Qed.

(** ** Thresholds in the units of the data *)
Lemma div_threshold (k c K x : Qc) :
  0 < c → k * c = K → (k ≤ x / c ↔ K ≤ x).
Proof.
  intros Hc <-.
  assert (Hc0 : c ≠ 0) by (intros ->; by apply Qclt_not_eq in Hc).
  assert (E : x / c * c = x).
  { rewrite Qcmult_comm. by apply Qcmult_div_r. }
  split; intros H.
  - rewrite <-E. apply Qcmult_le_compat_r; [done|]. by apply Qclt_le_weak.
  - apply (Qcmult_lt_0_le_reg_r _ _ c); [done|]. by rewrite E.
Qed.

Lemma Qcleb_div_threshold (k c K x : Qc) :
  0 < c → k * c = K → Qcleb k (x / c) = bool_decide (K ≤ x).
Proof.
  intros Hc HK. rewrite Qcleb_decide. apply bool_decide_ext.
  by apply div_threshold.
Qed.

Lemma AMOUNT_col amt bars : Cols.AMOUNT amt bars = col (amount_of amt) bars.
Proof.
  unfold Cols.AMOUNT, amount_of. destruct amt; [done|].
  unfold Cols.VOL, Cols.C, col.
  induction bars as [|b bars IH]; [done|]. cbn [map zip_with]. by rewrite IH.
Qed.

(** X7.  The liquidity flag at bar [i] holds exactly when 28 bars are there
    and the mean traded value of the 28 bars ending at [i] is at least
    500000 (the value is [amount], or [volume * close] without that
    column). *)
Theorem liquidity_threshold (amt : bool) (bars : list Bar) (i : nat) :
  (i < length bars)%nat →
  Cols.lq amt bars !! i
  = Some (bool_decide (28 ≤ S i)%nat
          && bool_decide (num 500000
                          ≤ agg_mean (amount_of amt <$> last_bars 28 i bars))).
Proof.
  intros Hi. unfold Cols.lq, Cols.A28.
  change (map ?f ?l) with (f <$> l).
  rewrite !list_lookup_fmap, AMOUNT_col, rolling_col_lookup by done.
  cbn [fmap option_fmap option_map].
  destruct (decide (28 ≤ S i)%nat) as [Hw|Hw].
  - rewrite bool_decide_eq_true_2 by done. cbn [andb]. f_equal.
    unfold fge, fle, fdivc, fdiv, lift2, cmp2.
    apply Qcleb_div_threshold; [reflexivity | compute_done].
  - by rewrite bool_decide_eq_false_2 by done.
Qed.



Lemma analysed_elem spot files r :
  r ∈ analysed spot files
  ↔ ∃ code df, (code, df) ∈ files
             ∧ select_one (load_spot_dict spot) code df = Some r.
Proof.
  unfold analysed. rewrite list_elem_of_omap. split.
  - intros ([code df] & Hin & Hr). by exists code, df.
  - intros (code & df & Hin & Hr). by exists (code, df).
Qed.


Lemma results_row_selected spot_dict code df r :
  select_one spot_dict code df = Some r →
  ∃ x y,
    results_row r
    = Some {| row_code := Some code;
              row_date := r_date r;
              row_J := VNum (Some x);
              row_MACD_DIF := VNum (Some y);
              row_MV := match spot_dict !! code with
                        | Some mv => VNum (Some mv)
                        | None => VNone
                        end;
              row_close := close (raw_data r);
              row_volume := volume (raw_data r) |}
    ∧ (selected r = true → x ≤ num 13 ∧ 0 < y).
Proof.
  intros Hsel. apply select_one_Some in Hsel as (r0 & Hr0 & ->).
  destruct (analyze_stock_numbers df r0 Hr0)
    as (latest & x & y & trig & lq & max28 & yy & _ & _ & _ & _ & Hxg & Hind).
  destruct (check_market_value_entries spot_dict code (set_stock_code code r0))
    as (Hkeys & _ & Hmv & Hsel' & _ & _ & Hcode).
  cbn zeta in *.
  change (indicators (set_stock_code code r0)) with (indicators r0) in Hkeys.
  change (selected (set_stock_code code r0)) with (selected r0) in Hsel'.
  change (stock_code (set_stock_code code r0)) with (Some code) in Hcode.
  destruct (indicators_of_entries (Some x) (Some y) (selected r0)
              trig lq max28 yy (Qcltb 0 y)) as (E1&_&_&_&_&_&E7&_).
  cbn zeta in *. rewrite <-Hind in E1, E7.
  exists x, y. split.
  - unfold results_row.
    rewrite (Hkeys "J"), (Hkeys "MACD_DIF") by done.
    rewrite E1, E7, Hmv, Hcode. done.
  - rewrite Hsel'. intros [_ Hs]%andb_true_iff. rewrite Hs in Hxg.
    symmetry in Hxg. repeat (apply andb_true_iff in Hxg as [Hxg ?]).
    split; [by apply Qcleb_le | by apply Qcltb_lt].
Qed.

(** X16.  Building the report never misses a key.  Without a selected
    stock nothing is saved; otherwise there is one row per selected stock,
    each with a code of the files, [J <= 13], [DIF > 0] and the market value
    of the table (or none). *)
Theorem report_is_always_built (spot : option (gmap string Qc))
    (files : list (string * DataFrame)) :
  let chosen := run_stock_selection spot files in
  (chosen = [] → save_report chosen = NothingSelected)
  ∧ (chosen ≠ [] →
     ∃ rows,
       save_report chosen = Saved rows
       ∧ length rows = length chosen
       ∧ Forall (λ row,
           ∃ code x y,
             row_code row = Some code
             ∧ code ∈ files.*1
             ∧ row_J row = VNum (Some x) ∧ x ≤ num 13
             ∧ row_MACD_DIF row = VNum (Some y) ∧ 0 < y
             ∧ row_MV row = match load_spot_dict spot !! code with
                            | Some mv => VNum (Some mv)
                            | None => VNone
                            end) rows).
Proof.
  cbn zeta. split; [by intros ->|]. intros Hne.
  assert (Hall : Forall (λ r,
            ∃ row code x y,
              results_row r = Some row
              ∧ row_code row = Some code ∧ code ∈ files.*1
              ∧ row_J row = VNum (Some x) ∧ x ≤ num 13
              ∧ row_MACD_DIF row = VNum (Some y) ∧ 0 < y
              ∧ row_MV row = match load_spot_dict spot !! code with
                             | Some mv => VNum (Some mv)
                             | None => VNone
                             end) (run_stock_selection spot files)).
  { apply Forall_forall. intros r Hr. unfold run_stock_selection in Hr.
    apply list_elem_of_filter in Hr as [Hs Hr].
    apply analysed_elem in Hr as (code & df & Hin & Hsel).
    destruct (results_row_selected _ _ _ _ Hsel) as (x & y & Hrow & Hxy).
    destruct (Hxy Hs) as [Hx Hy].
    eexists _, code, x, y. split; [exact Hrow|]. cbn.
    split_and!; try done. apply list_elem_of_fmap. by exists (code, df). }
  generalize dependent (run_stock_selection spot files). intros chosen Hne Hall.
  assert (∃ rows, mapM results_row chosen = Some rows
                  ∧ length rows = length chosen
                  ∧ Forall (λ row, ∃ code x y,
                      row_code row = Some code ∧ code ∈ files.*1
                      ∧ row_J row = VNum (Some x) ∧ x ≤ num 13
                      ∧ row_MACD_DIF row = VNum (Some y) ∧ 0 < y
                      ∧ row_MV row = match load_spot_dict spot !! code with
                                     | Some mv => VNum (Some mv)
                                     | None => VNone
                                     end) rows) as (rows & Hm & Hl & Hf).
  { clear Hne. induction Hall as [|r chosen (row&code&x&y&Hrow&Hrest) _ IH].
    - by exists [].
    - destruct IH as (rows & Hm & Hl & Hf). exists (row :: rows).
      cbn. rewrite Hrow, Hm. cbn. split_and!; [done|by rewrite Hl|].
      constructor; [|done]. by exists code, x, y. }
  exists rows. unfold save_report. destruct chosen; [done|]. by rewrite Hm.
Qed.

(** ** [data_fetcher.py] *)

(* proofs *)
Lemma contains_digits p0 p ds :
  is_digit p0 = false → all_digits ds = true →
  contains (String p0 p) ds = false.
Proof.
  intros Hp. induction ds as [|c ds IH]; [done|].
  cbn [all_digits contains String.prefix]. intros [Hc Hds]%andb_true_iff.
  rewrite IH by done. destruct (Ascii.ascii_dec p0 c) as [->|Hne]; [congruence|].
  done.
Qed.

Lemma prefixed_code_not_both s :
  prefixed_code s → contains "sh" s && contains "sz" s = false.
Proof.
  intros (p & ds & -> & Hp & Hds).
  assert (Hsh : contains "sh" ds = false) by by apply contains_digits.
  assert (Hsz : contains "sz" ds = false) by by apply contains_digits.
  repeat (apply elem_of_cons in Hp as [->|Hp]); [..|by apply elem_of_nil in Hp].
  - apply andb_false_iff. right.
    change (contains "sz" ("sh" +:+ ds)) with (contains "sz" ds). done.
  - apply andb_false_iff. left.
    change (contains "sh" ("sz" +:+ ds)) with (contains "sh" ds). done.
  - apply andb_false_iff. left.
    change (contains "sh" ("bj" +:+ ds)) with (contains "sh" ds). done.
Qed.

(** X17.  [get_stock_list] keeps a code only if it contains both ["sh"]
    and ["sz"]: a code made of an exchange prefix and digits is never
    returned; a failed fetch gives the empty list. *)
Theorem get_stock_list_needs_both (spot : option (list (option string))) :
  (∀ code, code ∈ get_stock_list spot →
     contains "sh" code = true ∧ contains "sz" code = true
     ∧ ∃ codes, spot = Some codes ∧ Some code ∈ codes)
  ∧ (∀ code, code ∈ get_stock_list spot → ¬ prefixed_code code)
  ∧ get_stock_list None = [].
Proof.
  assert (H : ∀ code, code ∈ get_stock_list spot →
     contains "sh" code = true ∧ contains "sz" code = true
     ∧ ∃ codes, spot = Some codes ∧ Some code ∈ codes).
  { intros code Hin. destruct spot as [codes|]; [|by apply elem_of_nil in Hin].
    cbn in Hin. apply list_elem_of_omap in Hin as (c & Hc & Hid).
    cbn in Hid. subst c.
    apply list_elem_of_filter in Hc as [Hsz Hc].
    apply list_elem_of_filter in Hc as [Hsh Hc]. eauto. }
  split_and!; [done| |done].
  intros code Hin Hp. destruct (H code Hin) as (Hsh & Hsz & _).
  pose proof (prefixed_code_not_both code Hp) as Hb.
  rewrite Hsh, Hsz in Hb. done.
Qed.

Lemma fetch_single_cases daily code (files : data_dir) :
  (is_Some (files !! code)
   ∧ fetch_single_stock_data daily code files = (true, files))
  ∨ (files !! code = None ∧ fails daily code
     ∧ fetch_single_stock_data daily code files = (false, files))
  ∨ (files !! code = None
     ∧ ∃ raw, daily code = Some raw ∧ raw ≠ []
            ∧ fetch_single_stock_data daily code files
              = (true, <[code := sort_values raw]> files)).
Proof.
  unfold fetch_single_stock_data, fails.
  destruct (files !! code) as [rows|] eqn:E; [left; eauto|right].
  destruct (daily code) as [[|b raw]|]; [left; eauto | | left; eauto].
  right. split; [done|]. by exists (b :: raw).
Qed.

Lemma batch_fold daily (l : list string) (c : counts) (files : data_dir) :
  ∃ files',
    foldl (batch_step daily) (c, files) l
    = (add_counts c
         (length (filter (λ code, is_Some (files' !! code)) l))
         (length (filter (λ code, ¬ is_Some (files' !! code)) l)),
       files')
    ∧ files ⊆ files'
    ∧ (∀ code rows, files' !! code = Some rows →
         files !! code = Some rows
         ∨ (code ∈ l ∧ ∃ raw, daily code = Some raw ∧ raw ≠ []
                            ∧ rows = sort_values raw))
    ∧ (∀ code, code ∈ l → files' !! code = None → fails daily code).
Proof.
  revert c files. induction l as [|code l IH]; intros c files.
  - exists files. cbn. split_and!; try done.
    + destruct c. unfold add_counts. cbn. f_equal. f_equal; lia.
    + intros ? ? ?. by left.
    + intros ? H. by apply elem_of_nil in H.
  - cbn [foldl]. unfold batch_step at 2. cbn [snd fst].
    destruct (fetch_single_cases daily code files)
      as [(Hex & ->) | [(Hno & Hfail & ->) | (Hno & raw & Hraw & Hne & ->)]].
    + destruct (IH {| success_count := S (success_count c);
                      fail_count := fail_count c |} files)
        as (files' & Hf & Hsub & Hnew & Hmiss).
      exists files'. rewrite Hf.
      assert (Hex' : is_Some (files' !! code)).
      { destruct Hex as [rows Hrows]. exists rows.
        by eapply lookup_weaken. }
      split_and!; try done.
      * rewrite !filter_cons. rewrite decide_True by done.
        rewrite decide_False by (intros Hn; by apply Hn).
        unfold add_counts. cbn. f_equal. f_equal; lia.
      * intros code' rows Hr. destruct (Hnew _ _ Hr) as [?|(Hin & Hrest)];
          [by left|right]. split; [by right|done].
      * intros code' [->|Hin]%elem_of_cons Hn; [|by apply Hmiss].
        destruct Hex' as [? Hx]. congruence.
    + destruct (IH {| success_count := success_count c;
                      fail_count := S (fail_count c) |} files)
        as (files' & Hf & Hsub & Hnew & Hmiss).
      exists files'. rewrite Hf.
      assert (Hno' : files' !! code = None).
      { destruct (files' !! code) as [rows|] eqn:E; [|done].
        destruct (Hnew _ _ E) as [?|(_ & raw & Hraw & Hne & _)]; [congruence|].
        destruct Hfail as [Hd|Hd]; rewrite Hd in Hraw; congruence. }
      split_and!; try done.
      * rewrite !filter_cons.
        rewrite decide_False by (rewrite Hno'; by intros [? ?]).
        rewrite decide_True by (rewrite Hno'; by intros [? ?]).
        unfold add_counts. cbn. f_equal. f_equal; lia.
      * intros code' rows Hr. destruct (Hnew _ _ Hr) as [?|(Hin & Hrest)];
          [by left|right]. split; [by right|done].
      * intros code' [->|Hin]%elem_of_cons Hn; [done|by apply Hmiss].
    + destruct (IH {| success_count := S (success_count c);
                      fail_count := fail_count c |}
                   (<[code := sort_values raw]> files))
        as (files' & Hf & Hsub & Hnew & Hmiss).
      exists files'. rewrite Hf.
      assert (Hex' : files' !! code = Some (sort_values raw)).
      { eapply lookup_weaken; [|done]. apply lookup_insert_eq. }
      split_and!.
      * rewrite !filter_cons. rewrite decide_True by (by rewrite Hex').
        rewrite decide_False by (rewrite Hex'; intros Hn; by apply Hn).
        unfold add_counts. cbn. f_equal. f_equal; lia.
      * etrans; [|done]. by apply insert_subseteq.
      * intros code' rows Hr. destruct (Hnew _ _ Hr) as [Hi|(Hin & Hrest)].
        -- destruct (decide (code = code')) as [<-|Hne'].
           ++ rewrite lookup_insert_eq in Hi. injection Hi as <-.
              right. split; [by left|]. by exists raw.
           ++ rewrite lookup_insert_ne in Hi by done. by left.
        -- right. split; [by right|done].
      * intros code' [->|Hin]%elem_of_cons Hn; [congruence|by apply Hmiss].
Qed.

Lemma filter_split_length {A} (P : A → Prop) `{!∀ x, Decision (P x)}
    (l : list A) :
  (length (filter P l) + length (filter (λ x, ¬ P x) l) = length l)%nat.
Proof.
  induction l as [|a l IH]; [done|]. rewrite !filter_cons.
  destruct (decide (P a)).
  - rewrite decide_False by tauto. cbn. lia.
  - rewrite decide_True by done. cbn. lia.
Qed.

(** X18.  After a batch the two counters add up to the number of codes
    handled, [success_count] counts the codes that have a file, files that
    were there are untouched, every new file holds the sorted rows of a
    download that returned some, and a code without a file is one whose
    download raised or was empty. *)
Theorem batch_fetch_outcome (spot : option (list (option string)))
    (daily : string → option (list Bar)) (max_stocks : option Z)
    (files : data_dir) :
  let stock_list := limit max_stocks (get_stock_list spot) in
  ∃ c files',
    batch_fetch_data spot daily max_stocks files = (c, files')
    ∧ (success_count c + fail_count c = length stock_list)%nat
    ∧ success_count c
      = length (filter (λ code, is_Some (files' !! code)) stock_list)
    ∧ files ⊆ files'
    ∧ (∀ code rows, files' !! code = Some rows →
         files !! code = Some rows
         ∨ (code ∈ stock_list ∧ files !! code = None
            ∧ ∃ raw, daily code = Some raw ∧ raw ≠ []
                   ∧ rows = sort_values raw))
    ∧ (∀ code, code ∈ stock_list → files' !! code = None →
         daily code = None ∨ daily code = Some []).
Proof.
  cbn zeta. unfold batch_fetch_data.
  destruct (batch_fold daily (limit max_stocks (get_stock_list spot))
              {| success_count := 0; fail_count := 0 |} files)
    as (files' & Hf & Hsub & Hnew & Hmiss).
  eexists _, files'. split; [exact Hf|]. cbn [add_counts success_count fail_count].
  split_and!; try done.
  - pose proof (filter_split_length
      (λ code, is_Some (files' !! code))
      (limit max_stocks (get_stock_list spot))) as E.
    cbn. lia.
  - intros code rows Hr. destruct (Hnew _ _ Hr) as [?|(Hin & Hrest)]; [by left|].
    destruct (files !! code) as [old|] eqn:E; [|by right].
    left. pose proof (lookup_weaken _ _ _ _ E Hsub). congruence.
Qed.

(** X19.  Running the batch again on its own result, with the same
    downloads, changes no file and returns the same counters. *)
Theorem batch_fetch_twice (spot : option (list (option string)))
    (daily : string → option (list Bar)) (max_stocks : option Z)
    (files files' : data_dir) (c : counts) :
  batch_fetch_data spot daily max_stocks files = (c, files') →
  batch_fetch_data spot daily max_stocks files' = (c, files').
Proof.
  unfold batch_fetch_data. set (l := limit max_stocks (get_stock_list spot)).
  set (c0 := {| success_count := 0; fail_count := 0 |}).
  intros H1.
  destruct (batch_fold daily l c0 files) as (f1 & Hf1 & Hsub1 & Hnew1 & Hmiss1).
  rewrite Hf1 in H1. injection H1 as Hc <-.
  destruct (batch_fold daily l c0 f1) as (f2 & Hf2 & Hsub2 & Hnew2 & Hmiss2).
  assert (E : f2 = f1).
  { apply map_eq. intros code.
    destruct (f2 !! code) as [rows|] eqn:E2.
    - destruct (Hnew2 _ _ E2) as [?|(Hin & raw & Hraw & Hne & _)]; [done|].
      destruct (f1 !! code) as [rows'|] eqn:E1.
      + pose proof (lookup_weaken _ _ _ _ E1 Hsub2). congruence.
      + destruct (Hmiss1 _ Hin E1) as [Hd|Hd]; rewrite Hd in Hraw; congruence.
    - destruct (f1 !! code) as [rows'|] eqn:E1; [|done].
      pose proof (lookup_weaken _ _ _ _ E1 Hsub2). congruence. }
  rewrite Hf2, E. by rewrite Hc.
Qed.

(** X20.  A fresh successful fetch saves the downloaded rows sorted by
    date; when no date occurs twice, the saved rows are analysed like the
    downloaded ones. *)
Theorem saved_file_analyses_alike (daily : string → option (list Bar))
    (code : string) (files files' : data_dir) (amt : bool) :
  files !! code = None →
  fetch_single_stock_data daily code files = (true, files') →
  ∃ raw saved,
    daily code = Some raw ∧ raw ≠ []
    ∧ files' = <[code := saved]> files
    ∧ saved ≡ₚ raw
    ∧ StronglySorted date_le saved
    ∧ (NoDup (date <$> raw) →
       analyze_stock {| has_amount := amt; rows := saved |}
       = analyze_stock {| has_amount := amt; rows := raw |}).
Proof.
  intros Hno Hf.
  destruct (fetch_single_cases daily code files)
    as [([? Hex] & _) | [(_ & _ & E) | (_ & raw & Hraw & Hne & E)]].
  - congruence.
  - rewrite E in Hf. done.
  - rewrite E in Hf. injection Hf as <-.
    exists raw, (sort_values raw).
    split_and!; try done; [apply sort_values_perm | apply sort_values_sorted|].
    intros Hnd. unfold analyze_stock. cbn [rows has_amount].
    rewrite sort_values_length.
    rewrite (sort_values_perm_eq (sort_values raw) raw);
      [done | apply sort_values_perm|].
    by rewrite sort_values_perm.
Qed.


Lemma sma_leading_nan_witness :
  [Some (num 10); Some (frac 21 2)] ≠ []
  ∧ sma (replicate 2 NaN ++ [Some (num 10); Some (frac 21 2)]) (num 3) 1
    = (λ R, replicate 2 NaN ++ R)
        <$> sma [Some (num 10); Some (frac 21 2)] (num 3) 1.
Proof.
  assert (H1 : [Some (num 10); Some (frac 21 2)] ≠ []) by discriminate.
  split; [exact H1 | exact (sma_leading_nan 2 _ (num 3) 1 H1)].
Defined.


Lemma kdj_warm_up_witness :
  ∃ k d j, calculate_kdj (map ramp (seq 0 10)) = Some (k, d, j)
         ∧ (9 < length (map ramp (seq 0 10)))%nat
         ∧ k !! 0%nat = Some NaN
         ∧ ∃ x, k !! 9%nat = Some (Some x).
Proof.
  destruct (calculate_kdj (map ramp (seq 0 10))) as [[[k d] j]|] eqn:E.
  - assert (H9 : (9 < length (map ramp (seq 0 10)))%nat) by (vm_compute; lia).
    assert (H0 : (0 < length (map ramp (seq 0 10)))%nat) by (vm_compute; lia).
    exists k, d, j. split_and!; [reflexivity | exact H9 | |].
    + destruct (kdj_warm_up _ _ _ _ 0 E H0) as [Hlow _].
      destruct Hlow as (Hk & _); [lia | exact Hk].
    + destruct (kdj_warm_up _ _ _ _ 9 E H9) as [_ Hhigh].
      destruct Hhigh as (x & y & Hk & _); [lia | exists x; exact Hk].
  - exfalso. vm_compute in E. discriminate E.
Defined.

Lemma ramp_well_formed : Forall well_formed (map ramp (seq 0 10)).
Proof. repeat constructor; discriminate. Qed.

Lemma kdj_range_witness :
  Forall well_formed (map ramp (seq 0 10))
  ∧ ∃ k d j, calculate_kdj (map ramp (seq 0 10)) = Some (k, d, j)
           ∧ Forall (cell_in 0 (num 100)) k.
Proof.
  split; [exact ramp_well_formed|].
  destruct (calculate_kdj (map ramp (seq 0 10))) as [[[k d] j]|] eqn:E.
  - exists k, d, j. split; [reflexivity|].
    exact (proj1 (proj2 (kdj_range _ _ _ _ ramp_well_formed E))).
  - exfalso. vm_compute in E. discriminate E.
Defined.

Lemma candle_label_relations_witness :
  (1 < length two_bars)%nat
  ∧ ∃ fake_yang fake_yin,
      Cols.FAKE_YANG two_bars !! 1%nat = Some fake_yang
      ∧ Cols.FAKE_YIN two_bars !! 1%nat = Some fake_yin
      ∧ fake_yang || fake_yin = true.
Proof.
  assert (H : (1 < length two_bars)%nat) by (simpl; lia).
  split; [exact H|].
  destruct (candle_label_relations two_bars 1 H)
    as (a & b & c & d & _ & _ & Hc & Hd & _ & _ & _ & Hcd).
  exists c, d. split_and!; [exact Hc | exact Hd | exact Hcd].
Defined.

Lemma flat_close_const n : Forall (λ b, close b = num 100) (flat_rows n).
Proof.
  unfold flat_rows. change map with (@fmap list _) at 1.
  by apply Forall_fmap, Forall_forall.
Qed.

Lemma constant_close_never_selected_witness :
  Forall (λ b, close b = num 100) (rows (flat_frame 60))
  ∧ ∃ r, select_one ∅ "600000" (flat_frame 60) = Some r
       ∧ selected r = false.
Proof.
  split; [exact (flat_close_const 60)|].
  destruct (select_one ∅ "600000" (flat_frame 60)) as [r|] eqn:E.
  - exists r. split; [reflexivity|].
    exact (proj1 (constant_close_never_selected (flat_frame 60) (num 100)
                    ∅ "600000" r (flat_close_const 60) E)).
  - exfalso. vm_compute in E. discriminate E.
Defined.

Lemma report_guards_never_fire_witness :
  ∃ r x, analyze_stock (flat_frame 60) = Some r
       ∧ indicators r !! "J" = Some (VNum (Some x)).
Proof.
  destruct (analyze_stock (flat_frame 60)) as [r|] eqn:E.
  - destruct (report_guards_never_fire _ r E) as (x & y & Hx & _).
    exists r, x. split; [reflexivity | exact Hx].
  - exfalso. vm_compute in E. discriminate E.
Defined.

Lemma latest_bar_is_reported_witness :
  ∃ r, analyze_stock dip_frame = Some r ∧ r_date r = date (raw_data r).
Proof.
  destruct (analyze_stock dip_frame) as [r|] eqn:E.
  - exists r. split; [reflexivity|].
    exact (proj1 (proj2 (latest_bar_is_reported _ r E))).
  - exfalso. vm_compute in E. discriminate E.
Defined.

Lemma row_order_is_irrelevant_witness :
  rows {| has_amount := true; rows := reverse (flat_rows 60) |}
    ≡ₚ rows (flat_frame 60)
  ∧ NoDup (date <$> rows {| has_amount := true;
                            rows := reverse (flat_rows 60) |})
  ∧ analyze_stock {| has_amount := true; rows := reverse (flat_rows 60) |}
    = analyze_stock (flat_frame 60).
Proof.
  assert (H1 : rows {| has_amount := true; rows := reverse (flat_rows 60) |}
                 ≡ₚ rows (flat_frame 60)) by apply reverse_Permutation.
  assert (H2 : NoDup (date <$> rows {| has_amount := true;
                                       rows := reverse (flat_rows 60) |})).
  { apply (bool_decide_unpack _). vm_compute. exact I. }
  split_and!; [exact H1 | exact H2 |].
  exact (row_order_is_irrelevant _ (flat_frame 60) H1 H2 eq_refl).
Defined.

Lemma sorted_frame_is_kept_witness :
  StronglySorted (λ a b, (date a < date b)%Z) two_bars
  ∧ sort_values two_bars = two_bars.
Proof.
  assert (H : StronglySorted (λ a b, (date a < date b)%Z) two_bars).
  { repeat constructor. }
  split; [exact H | exact (sorted_frame_is_kept _ H)].
Defined.

Lemma liquidity_threshold_witness :
  (59 < length (flat_rows 60))%nat
  ∧ Cols.lq true (flat_rows 60) !! 59%nat = Some false.
Proof.
  assert (H : (59 < length (flat_rows 60))%nat) by (vm_compute; lia).
  split; [exact H|].
  rewrite (liquidity_threshold true (flat_rows 60) 59 H).
  vm_compute. reflexivity.
Defined.

Lemma selected_implies_conditions_witness :
  ∃ r x, select_one ∅ "sh600000" surge_frame = Some r
       ∧ selected r = true
       ∧ indicators r !! "J" = Some (VNum (Some x)) ∧ x ≤ num 13.
Proof.
  destruct (select_one ∅ "sh600000" surge_frame) as [r|] eqn:E.
  - assert (Hs : selected r = true).
    { vm_compute in E. injection E as <-. reflexivity. }
    destruct (selected_implies_conditions ∅ "sh600000" surge_frame r E Hs)
      as (x & y & HJ & Hx & _).
    exists r, x. split_and!; [reflexivity | exact Hs | exact HJ | exact Hx].
  - exfalso. vm_compute in E. discriminate E.
Defined.

Lemma report_is_always_built_witness :
  run_stock_selection None [("sh600000", surge_frame)] ≠ []
  ∧ ∃ rows, save_report (run_stock_selection None [("sh600000", surge_frame)])
            = Saved rows
          ∧ length rows = 1%nat.
Proof.
  assert (Hlen : length (run_stock_selection None [("sh600000", surge_frame)])
                 = 1%nat) by (vm_compute; reflexivity).
  assert (Hne : run_stock_selection None [("sh600000", surge_frame)] ≠ []).
  { intros E. rewrite E in Hlen. discriminate Hlen. }
  split; [exact Hne|].
  destruct (proj2 (report_is_always_built None [("sh600000", surge_frame)]) Hne)
    as (rows & Hsaved & Hrows & _).
  exists rows. split; [exact Hsaved|]. rewrite Hrows. exact Hlen.
Defined.

Lemma get_stock_list_needs_both_witness :
  get_stock_list (Some [Some "sh600000"; Some "shsz01"; None; Some "sz000001"])
  = ["shsz01"]
  ∧ contains "sh" "shsz01" = true ∧ contains "sz" "shsz01" = true.
Proof.
  assert (E : get_stock_list
                (Some [Some "sh600000"; Some "shsz01"; None; Some "sz000001"])
              = ["shsz01"]) by reflexivity.
  split; [exact E|].
  destruct (proj1 (get_stock_list_needs_both
             (Some [Some "sh600000"; Some "shsz01"; None; Some "sz000001"]))
             "shsz01") as (H1 & H2 & _).
  - rewrite E. apply elem_of_cons. left. reflexivity.
  - split; [exact H1 | exact H2].
Defined.

Lemma batch_fetch_twice_witness :
  ∃ c files',
    batch_fetch_data (Some [Some "shsz01"; Some "shsz02"]) daily_example None ∅
    = (c, files')
    ∧ batch_fetch_data (Some [Some "shsz01"; Some "shsz02"]) daily_example
        None files'
      = (c, files')
    ∧ success_count c = 1%nat ∧ fail_count c = 1%nat.
Proof.
  destruct (batch_fetch_data (Some [Some "shsz01"; Some "shsz02"])
              daily_example None ∅) as [c files'] eqn:E.
  exists c, files'. split_and!; [reflexivity | | |].
  - exact (batch_fetch_twice _ _ _ _ _ _ E).
  - vm_compute in E. injection E as <- _. reflexivity.
  - vm_compute in E. injection E as <- _. reflexivity.
Defined.

Lemma saved_file_analyses_alike_witness :
  (∅ : data_dir) !! "shsz01" = None
  ∧ ∃ files' raw saved,
      fetch_single_stock_data daily_example "shsz01" ∅ = (true, files')
      ∧ daily_example "shsz01" = Some raw
      ∧ files' = <["shsz01" := saved]> ∅
      ∧ saved ≡ₚ raw.
Proof.
  assert (H0 : (∅ : data_dir) !! "shsz01" = None) by reflexivity.
  split; [exact H0|].
  destruct (fetch_single_stock_data daily_example "shsz01" ∅)
    as [ok files'] eqn:E.
  assert (Hok : ok = true).
  { vm_compute in E. injection E as <- _. reflexivity. }
  subst ok.
  destruct (saved_file_analyses_alike daily_example "shsz01" ∅ files' true
              H0 E) as (raw & saved & Hraw & _ & Hf & Hp & _).
  exists files', raw, saved.
  split_and!; [reflexivity | exact Hraw | exact Hf | exact Hp].
Defined.
